(** * The EC2 cost canary: a shallow embedding of [handler] and its helpers

    The Lambda function of [costCanary.ts] enumerates the tagged running
    instances, prices every distinct instance type through the pricing
    catalog, multiplies the per-second rate by the seconds elapsed since
    launch, sums, rounds with [toFixed(2)] and publishes one datapoint.

    JavaScript numbers are IEEE 754 binary64 values: they are modelled by
    Rocq's primitive [float], whose operations are specified against
    [SpecFloat].  Values of type [any] that come out of the pricing
    catalog are modelled by [jsval].  Strings are sequences of characters
    with codes below 256, which covers the ASCII texts the services
    return.

    The file has two parts: the model (definitions only), then the
    results. *)

From Stdlib Require Import ZArith NArith QArith Qabs List String Ascii Bool Lia Floats.
From Stdlib Require Decimal DecimalString DecimalN.
Import ListNotations.

Set Warnings "-inexact-float,-register-all".

Local Open Scope Z_scope.
Local Open Scope list_scope.

(** ** JavaScript values of the pricing documents *)

Module JS.

(** A pricing document is parsed JSON.  An object is kept as the sequence
    of its own enumerable properties, in the order in which
    [JSON.stringify] and [for ... in] enumerate them; an array as the
    sequence of its elements. *)
Inductive jsval : Type :=
| JUndefined
| JNull
| JBool (b : bool)
| JNum (x : float)
| JStr (s : string)
| JArr (elems : list jsval)
| JObj (props : list (string * jsval)).

(** Induction that also gives the hypothesis for the values nested in an
    array or an object. *)
Section JsvalInd.
Variable P : jsval -> Prop.
Hypothesis Hundef : P JUndefined.
Hypothesis Hnull : P JNull.
Hypothesis Hbool : forall b, P (JBool b).
Hypothesis Hnum : forall x, P (JNum x).
Hypothesis Hstr : forall s, P (JStr s).
Hypothesis Harr : forall l, Forall P l -> P (JArr l).
Hypothesis Hobj : forall kvs, Forall (fun kv => P (snd kv)) kvs -> P (JObj kvs).

Fixpoint jsval_nested_ind (v : jsval) : P v :=
  match v with
  | JUndefined => Hundef
  | JNull => Hnull
  | JBool b => Hbool b
  | JNum x => Hnum x
  | JStr s => Hstr s
  | JArr l =>
      Harr l ((fix go (l : list jsval) : Forall P l :=
                 match l with
                 | [] => Forall_nil P
                 | v :: l' => Forall_cons v (jsval_nested_ind v) (go l')
                 end) l)
  | JObj kvs =>
      Hobj kvs ((fix go (kvs : list (string * jsval))
                   : Forall (fun kv => P (snd kv)) kvs :=
                   match kvs with
                   | [] => Forall_nil _
                   | kv :: kvs' =>
                       Forall_cons kv (jsval_nested_ind (snd kv)) (go kvs')
                   end) kvs)
  end.
End JsvalInd.

(** [ToBoolean]: the falsy values are [undefined], [null], [false], [+0],
    [-0], [NaN] and the empty string. *)
Definition ToBoolean (v : jsval) : bool :=
  match v with
  | JUndefined | JNull => false
  | JBool b => b
  | JNum x => negb (is_zero x || is_nan x)
  | JStr s => negb (String.eqb s "")
  | JArr _ | JObj _ => true
  end.

(** Own-property lookup in the property sequence of an object. *)
Fixpoint lookup (k : string) (props : list (string * jsval)) : option jsval :=
  match props with
  | [] => None
  | (k', v) :: rest => if String.eqb k' k then Some v else lookup k rest
  end.

(** [v[k]] for a key [k] that is a plain data key such as ["USD"]: only
    an object can hold it (primitives and arrays get [undefined] from
    their prototypes, which define no such key).  It is not the property
    read for a key that a prototype defines, such as ["length"] or
    ["constructor"], nor for an index. *)
Definition get (v : jsval) (k : string) : jsval :=
  match v with
  | JObj props =>
      match lookup k props with
      | Some x => x
      | None => JUndefined
      end
  | _ => JUndefined
  end.

(** What a rejected promise of the handler carries. *)
Inductive error : Type :=
| TypeError
| SyntaxError (text : string).   (* the text [JSON.parse] rejected *)

Inductive result (A : Type) : Type :=
| Ok (a : A)
| Throw (e : error).
Arguments Ok {A} a.
Arguments Throw {A} e.

Definition bind {A B : Type} (r : result A) (k : A -> result B) : result B :=
  match r with
  | Ok a => k a
  | Throw e => Throw e
  end.

End JS.
Import JS.

Notation "x <- r ;; k" := (bind r (fun x => k))
  (at level 61, r at next level, right associativity).

(** ** Numbers and their texts *)

Module Num.

Local Open Scope string_scope.

(** The double nearest to the integer [z] (the integer itself below
    2^53). *)
Definition Z2F (z : Z) : float :=
  SF2Prim (binary_normalize prec emax z 0 false).

(** The double nearest (ties to even) to [M * 10^E], signed: the Number
    value of a decimal literal with digits [M] and exponent [E]. *)
Definition round_decimal (neg : bool) (M : N) (E : Z) : float :=
  match M with
  | N0 => if neg then neg_zero else zero
  | Npos m =>
      match E with
      | Zneg k =>
          SF2Prim (SFdiv prec emax (S754_finite neg m 0)
                         (S754_finite false (10 ^ k) 0))
      | _ =>
          SF2Prim (binary_normalize prec emax
                     (cond_Zopp neg (Zpos m * 10 ^ E)) 0 false)
      end
  end.

(** Decimal digits of a natural number. *)
Definition digits (n : N) : string :=
  DecimalString.NilEmpty.string_of_uint (N.to_uint n).

(** The value of a digit in radix [b], and of a digit string read from
    the left. *)
Definition digit_in (b : N) (c : ascii) : option N :=
  let n := N_of_ascii c in
  let d := if ((48 <=? n) && (n <=? 57))%N then Some (n - 48)%N
           else if ((97 <=? n) && (n <=? 102))%N then Some (n - 87)%N
           else if ((65 <=? n) && (n <=? 70))%N then Some (n - 55)%N
           else None in
  match d with
  | Some v => if (v <? b)%N then Some v else None
  | None => None
  end.

Fixpoint radix_value (b : N) (s : string) (acc : N) : option N :=
  match s with
  | EmptyString => Some acc
  | String c r =>
      match digit_in b c with
      | Some d => radix_value b r (acc * b + d)%N
      | None => None
      end
  end.

(** [DecimalDigits]: one digit at least. *)
Definition is_digits (s : string) : bool :=
  match s with
  | EmptyString => false
  | _ => match radix_value 10 s 0 with
         | Some _ => true
         | None => false
         end
  end.

Definition digits_value (s : string) : N :=
  match radix_value 10 s 0 with
  | Some v => v
  | None => 0%N
  end.

(** Split at the first character satisfying [p]. *)
Fixpoint split_at (p : ascii -> bool) (s : string) : string * option string :=
  match s with
  | EmptyString => (EmptyString, None)
  | String c rest =>
      if p c then (EmptyString, Some rest)
      else let (a, b) := split_at p rest in (String c a, b)
  end.

Fixpoint drop_while (p : ascii -> bool) (s : string) : string :=
  match s with
  | String c rest => if p c then drop_while p rest else s
  | EmptyString => s
  end.

Fixpoint rev_string (acc s : string) : string :=
  match s with
  | EmptyString => acc
  | String c rest => rev_string (String c acc) rest
  end.

(** Without the trailing characters satisfying [p]. *)
Fixpoint drop_end (p : ascii -> bool) (s : string) : string :=
  match s with
  | EmptyString => EmptyString
  | String c rest =>
      match drop_end p rest with
      | EmptyString => if p c then EmptyString else String c EmptyString
      | kept => String c kept
      end
  end.

Definition trim (p : ascii -> bool) (s : string) : string :=
  drop_end p (drop_while p s).

Definition is_e (c : ascii) : bool := Ascii.eqb c "e" || Ascii.eqb c "E".
Definition is_dot (c : ascii) : bool := Ascii.eqb c ".".

(** [SignedInteger] of an exponent part. *)
Definition signed_integer (s : string) : option Z :=
  match s with
  | String "+" r =>
      if is_digits r then Some (Z.of_N (digits_value r)) else None
  | String "-" r =>
      if is_digits r then Some (- Z.of_N (digits_value r)) else None
  | _ => if is_digits s then Some (Z.of_N (digits_value s)) else None
  end.

Definition exponent_part (expo : option string) : option Z :=
  match expo with
  | None => Some 0
  | Some t => signed_integer t
  end.

(** *** [JSON.parse] on the text of a number *)

(** The integer part of a JSON number has no superfluous leading zero. *)
Definition json_int (s : string) : bool :=
  is_digits s && match s with
                 | String "0" (String _ _) => false
                 | _ => true
                 end.

(** The JSON grammar of an unsigned number: digits and decimal exponent
    of its value. *)
Definition json_number (body : string) : option (N * Z) :=
  let (mant, expo) := split_at is_e body in
  let (int, frac) := split_at is_dot mant in
  let f := match frac with
           | None => Some EmptyString
           | Some t => if is_digits t then Some t else None
           end in
  match json_int int, f, exponent_part expo with
  | true, Some fr, Some ex =>
      Some (digits_value (int ++ fr), ex - Z.of_nat (String.length fr))
  | _, _, _ => None
  end.

Definition json_ws (c : ascii) : bool :=
  Ascii.eqb c " " || Ascii.eqb c "009" || Ascii.eqb c "010" || Ascii.eqb c "013".

(** [JSON.parse(text)] for the texts [toFixed] can produce, which are
    number texts or the words NaN and Infinity: [None] is the SyntaxError
    thrown on a text that is not a JSON number.  (The other JSON texts,
    such as true or a quoted string, never reach the call and are not
    modelled.) *)
Definition JSON_parse (text : string) : option float :=
  let t := trim json_ws text in
  let (neg, body) := match t with
                     | String "-" r => (true, r)
                     | _ => (false, t)
                     end in
  match json_number body with
  | Some (M, E) => Some (round_decimal neg M E)
  | None => None
  end.

(** *** [ToNumber], the coercion applied by [/] *)

(** White space and line terminators with a code below 256. *)
Definition js_ws (c : ascii) : bool :=
  let n := N_of_ascii c in
  ((9 <=? n) && (n <=? 13) || (n =? 32) || (n =? 160))%N.

Definition radix_of (c : ascii) : option N :=
  if Ascii.eqb c "x" || Ascii.eqb c "X" then Some 16%N
  else if Ascii.eqb c "o" || Ascii.eqb c "O" then Some 8%N
  else if Ascii.eqb c "b" || Ascii.eqb c "B" then Some 2%N
  else None.

Definition opt_digits (s : string) : bool :=
  match s with
  | EmptyString => true
  | _ => is_digits s
  end.

(** [StrUnsignedDecimalLiteral] other than Infinity. *)
Definition str_unsigned_decimal (body : string) : option (N * Z) :=
  let (mant, expo) := split_at is_e body in
  let (int, frac) := split_at is_dot mant in
  let shape :=
    match frac with
    | None => if is_digits int then Some EmptyString else None
    | Some fr =>
        if opt_digits int && opt_digits fr
           && negb (String.eqb int "" && String.eqb fr "")
        then Some fr else None
    end in
  match shape, exponent_part expo with
  | Some fr, Some ex =>
      Some (digits_value (int ++ fr), ex - Z.of_nat (String.length fr))
  | _, _ => None
  end.

Definition StrDecimalLiteral (t : string) : float :=
  let (neg, u) := match t with
                  | String "+" r => (false, r)
                  | String "-" r => (true, r)
                  | _ => (false, t)
                  end in
  if String.eqb u "Infinity"
  then (if neg then neg_infinity else infinity)
  else match str_unsigned_decimal u with
       | Some (M, E) => round_decimal neg M E
       | None => nan
       end.

(** [StringToNumber] of ECMA-262. *)
Definition StringToNumber (str : string) : float :=
  let t := trim js_ws str in
  match t with
  | EmptyString => zero
  | String "0" (String c r) =>
      match radix_of c with
      | Some b =>
          match r with
          | EmptyString => nan
          | _ => match radix_value b r 0 with
                 | Some v => round_decimal false v 0
                 | None => nan
                 end
          end
      | None => StrDecimalLiteral t
      end
  | _ => StrDecimalLiteral t
  end.

(** [ToNumber] on the values a pricing document can hold.  A plain object
    prints as [[object Object]], which is not a number; an array goes
    through [join]: no element is the empty text, one element is the text
    of that element (empty for [null]; a number reads back as itself,
    [-0] as [+0]), and more elements have a comma in their text.  (An
    object that holds an entry named [toString] of its own cannot be
    printed: its conversion throws a TypeError, which this function,
    that always returns a number, does not show.  The catalog quotes its
    rates as texts.) *)
Fixpoint ToNumber (v : jsval) : float :=
  match v with
  | JUndefined => nan
  | JNull => zero
  | JBool b => if b then one else zero
  | JNum x => x
  | JStr s => StringToNumber s
  | JObj _ => nan
  | JArr [] => zero
  | JArr [e] =>
      match e with
      | JUndefined | JNull => zero
      | JBool _ => nan
      | JNum x => if is_zero x then zero else x
      | JStr s => StringToNumber s
      | JObj _ => nan
      | JArr _ => ToNumber e
      end
  | JArr _ => nan
  end.

(** *** [Number.prototype.toFixed(2)] *)

(** The integer [n] for which [n / 100 - m * 2^e] is as close to zero as
    possible, the larger one when there are two. *)
Definition nearest_hundredths (m : positive) (e : Z) : N :=
  match e with
  | Zneg k => Z.to_N ((2 * (100 * Zpos m) + 2 ^ Zpos k) / (2 * 2 ^ Zpos k))
  | _ => Z.to_N (100 * Zpos m * 2 ^ e)
  end.

Definition two_digits (n : N) : string :=
  digits (n / 10) ++ digits (n mod 10).

(** The digits of [n] with a point before the last two. *)
Definition fixed_text (n : N) : string :=
  digits (n / 100) ++ "." ++ two_digits (n mod 100).

Fixpoint strip_zeros (rev_ds : string) : string :=
  match rev_ds with
  | String "0" r => strip_zeros r
  | _ => rev_ds
  end.

(** Exponent notation of [s * 10^p], as [Number::toString] writes a value
    of at least 1e21. *)
Definition exponent_text (s : N) (p : Z) : string :=
  let ds := digits s in
  let n := Z.of_nat (String.length ds) + p in
  let e := "e+" ++ digits (Z.to_N (n - 1)) in
  match ds with
  | String d rest =>
      match rev_string "" (strip_zeros (rev_string "" rest)) with
      | EmptyString => String d e
      | frac => String d ("." ++ frac ++ e)
      end
  | EmptyString => e
  end.

Definition reads_back (x : float) (text : string) : bool :=
  match JSON_parse text with
  | Some y => PrimFloat.Leibniz.eqb x y
  | None => false
  end.

(** The shortest digit string [s] (of [k] digits, [k] growing) such that
    the Number value of [s * 10^(n-k)] is [x]; of two such strings of
    the same length the one closer to [x], the even one on a tie. *)
Fixpoint shortest (x : float) (X : N) (nd k fuel : nat) : option string :=
  match fuel with
  | O => None
  | S fuel' =>
      let p := Z.of_nat nd - Z.of_nat k in
      let s0 := (X / 10 ^ Z.to_N p)%N in
      let lo := exponent_text s0 p in
      let hi := exponent_text (s0 + 1) p in
      let below := (X - s0 * 10 ^ Z.to_N p)%N in
      let above := ((s0 + 1) * 10 ^ Z.to_N p - X)%N in
      match reads_back x lo, reads_back x hi with
      | true, true =>
          Some (if (above <? below)%N || (above =? below)%N && N.odd s0
                then hi else lo)
      | true, false => Some lo
      | false, true => Some hi
      | false, false => shortest x X nd (S k) fuel'
      end
  end.

(** [Number::toString] of a finite [x = m * 2^e >= 1e21]: seventeen
    digits always suffice; the full expansion stands behind them. *)
Definition NumberToString_large (x : float) (m : positive) (e : Z) : string :=
  let X := Z.to_N (Zpos m * 2 ^ e) in
  let nd := String.length (digits X) in
  match shortest x X nd 1 17 with
  | Some text => text
  | None => digits X
  end.

Definition ten21 : float := 0x1.b1ae4d6e2ef5p+69%float.

Definition toFixed2 (x : float) : string :=
  match Prim2SF x with
  | S754_nan => "NaN"
  | S754_infinity s => if s then "-Infinity" else "Infinity"
  | S754_zero _ => "0.00"
  | S754_finite s m e =>
      (if s then "-" else "") ++
      (if (ten21 <=? abs x)%float
       then NumberToString_large (abs x) m e
       else fixed_text (nearest_hundredths m e))
  end.

End Num.
Import Num.

(** ** [findPrice]: the search that rides on [JSON.stringify] *)

(** The replacer callback of [findPrice].  It returns [nestedValue]
    unchanged, so all it does is assign [foundObj]; the model returns the
    new content of that variable. *)
Definition replacer (keyToFind : string) (foundObj nestedValue : jsval) : jsval :=
  if ToBoolean nestedValue && ToBoolean (get nestedValue keyToFind)
  then nestedValue
  else foundObj.

(** [SerializeJSONProperty] of ECMA-262 with that replacer: the callback
    runs on the value first, then the elements of an array are serialized
    by index and the properties of an object in enumeration order.  The
    text produced is thrown away by [findPrice]; the state threaded
    through is [foundObj]. *)
Fixpoint SerializeJSONProperty (keyToFind : string) (foundObj value : jsval)
  : jsval :=
  let foundObj := replacer keyToFind foundObj value in
  match value with
  | JArr elems =>
      fold_left (SerializeJSONProperty keyToFind) elems foundObj
  | JObj props =>
      fold_left
        (fun found kv => let (_, v) := kv : string * jsval in
                         SerializeJSONProperty keyToFind found v)
        props foundObj
  | _ => foundObj
  end.

(** [foundObj?.USD] *)
Definition optional_USD (foundObj : jsval) : jsval :=
  match foundObj with
  | JUndefined | JNull => JUndefined
  | _ => get foundObj "USD"
  end.

Definition findPrice (entireObj : jsval) (keyToFind : string) : jsval :=
  let foundObj := SerializeJSONProperty keyToFind JUndefined entireObj in
  optional_USD foundObj.

(** ** [flattenArray] *)

(** An array whose elements are items or arrays again. *)
Inductive nested (A : Type) : Type :=
| Item (a : A)
| Nested (elems : list (nested A)).
Arguments Item {A} a.
Arguments Nested {A} elems.

Section NestedInd.
Variable A : Type.
Variable P : nested A -> Prop.
Hypothesis Hitem : forall a, P (Item a).
Hypothesis Hnested : forall l, Forall P l -> P (Nested l).

Fixpoint nested_deep_ind (b : nested A) : P b :=
  match b with
  | Item a => Hitem a
  | Nested l =>
      Hnested l ((fix go (l : list (nested A)) : Forall P l :=
                    match l with
                    | [] => Forall_nil P
                    | x :: l' => Forall_cons x (nested_deep_ind x) (go l')
                    end) l)
  end.
End NestedInd.

(** [Array.isArray(b) ? flattenArray(b) : b], as [concat] receives it:
    an array argument is spread, anything else is appended as one
    element. *)
Fixpoint flattenElement {A : Type} (b : nested A) : list A :=
  match b with
  | Item a => [a]
  | Nested elems => fold_left (fun a b => a ++ flattenElement b) elems []
  end.

Definition flattenArray {A : Type} (ary : list (nested A)) : list A :=
  fold_left (fun a b => a ++ flattenElement b) ary [].

(** ** The services the handler talks to *)

Record Instance : Type := {
  InstanceId : string;
  InstanceType : string;
  LaunchTime : Z   (* [new Date(LaunchTime).getTime()], milliseconds *)
}.

Record Reservation : Type := {
  Instances : option (list Instance)
}.

Record Filter : Type := {
  Name : string;
  Values : list string
}.

Record DescribeInstancesRequest : Type := {
  Filters : list Filter;
  MaxResults : option nat;
  NextToken : option string
}.

Record DescribeInstancesResult : Type := {
  Reservations : option (list Reservation);
  ResultNextToken : option string
}.

Record TermMatch : Type := {
  Field : string;
  Value : string
}.

Record GetProductsRequest : Type := {
  ServiceCode : string;
  ProductsMaxResults : nat;
  TermFilters : list TermMatch
}.

Record PutMetricDataRequest : Type := {
  Namespace : string;
  MetricName : string;
  Dimensions : list (string * string);
  Unit : string;
  MetricValue : float
}.

(** One invocation sees the environment variables, the answers of EC2
    and of the pricing catalog (its [PriceList], [undefined] when the
    field is missing) and a clock: [clock k] is the instant, in
    milliseconds, at which [new Date()] is read for the cost returned for
    the [k]-th instance.  Calls to the services are taken to succeed;
    [console.log] is not recorded. *)
Record World : Type := {
  TAG_KEY : option string;
  TAG_VALUE : option string;
  describeInstances : DescribeInstancesRequest -> DescribeInstancesResult;
  getProducts : GetProductsRequest -> jsval;
  clock : nat -> Z
}.

Inductive call : Type :=
| DescribeInstances (req : DescribeInstancesRequest)
| GetProducts (req : GetProductsRequest)
| PutMetricData (req : PutMetricDataRequest).

(** What an invocation did: its service calls in order, and how its
    promise settled. *)
Record Run : Type := {
  calls : list call;
  outcome : result unit
}.

(** ** The handler, stage by stage *)

Local Open Scope string_scope.

(** [process.env.X || default] *)
Definition or_default (v : option string) (default : string) : string :=
  match v with
  | Some s => if String.eqb s "" then default else s
  | None => default
  end.

Definition describeInstancesRequest (w : World) : DescribeInstancesRequest :=
  let tagKey := or_default (TAG_KEY w) "tracking" in
  let tagValue := or_default (TAG_VALUE w) "CC" in
  {| Filters := [ {| Name := "tag:" ++ tagKey; Values := [tagValue] |};
                  {| Name := "instance-state-name"; Values := ["running"] |} ];
     MaxResults := None;
     NextToken := None |}.

(** [Reservations?.map(reservation => reservation.Instances?.map(...))]:
    a reservation without [Instances] leaves [undefined] in the array. *)
Definition response (r : DescribeInstancesResult)
  : option (list (nested (option Instance))) :=
  match Reservations r with
  | None => None
  | Some rs =>
      Some (map (fun reservation =>
                   match Instances reservation with
                   | Some l => Nested (map (fun instance => Item (Some instance)) l)
                   | None => Item None
                   end) rs)
  end.

(** [flattenArray(response)]; [undefined.reduce] is a TypeError. *)
Definition instances (r : DescribeInstancesResult)
  : result (list (option Instance)) :=
  match response r with
  | Some ary => Ok (flattenArray ary)
  | None => Throw TypeError
  end.

(** The object [instanceCountByType], as its properties in insertion
    order.  Instance types are EC2 type names such as [t4g.2xlarge]:
    they are neither array indices nor names inherited from
    [Object.prototype], so [in], assignment and [for ... in] act on the
    own properties in insertion order. *)
Definition has_key (t : string) (o : list (string * nat)) : bool :=
  existsb (fun kv => String.eqb (fst kv) t) o.

Fixpoint increment (t : string) (o : list (string * nat)) : list (string * nat) :=
  match o with
  | [] => []
  | (k, n) :: rest =>
      if String.eqb k t then (k, S n) :: rest else (k, n) :: increment t rest
  end.

Definition count_type (o : list (string * nat)) (t : string) : list (string * nat) :=
  if has_key t o then increment t o else (o ++ [(t, 1%nat)])%list.

(** The names on which that reading of the object is the object's
    behaviour.  A name defined by [Object.prototype] answers [in] before
    it has been assigned ([++] then stores NaN, and nothing at all for
    [__proto__]); a key that is an array index is listed by
    [for ... in] before the other keys, in ascending order.  All array
    indices are strings of decimal digits. *)
Definition Object_prototype_names : list string :=
  [ "constructor"; "__defineGetter__"; "__defineSetter__"; "hasOwnProperty";
    "__lookupGetter__"; "__lookupSetter__"; "isPrototypeOf";
    "propertyIsEnumerable"; "toString"; "valueOf"; "__proto__";
    "toLocaleString" ].

Definition plain_name (t : string) : bool :=
  negb (existsb (String.eqb t) Object_prototype_names) && negb (is_digits t).

(** The [forEach] loop; reading [InstanceType] of [undefined] is a
    TypeError. *)
Fixpoint forEach_count (insts : list (option Instance)) (o : list (string * nat))
  : result (list (string * nat)) :=
  match insts with
  | [] => Ok o
  | None :: _ => Throw TypeError
  | Some instance :: rest => forEach_count rest (count_type o (InstanceType instance))
  end.

Definition instanceCountByType (insts : list (option Instance))
  : result (list (string * nat)) :=
  forEach_count insts [].

Definition getProductsRequest (instanceType : string) : GetProductsRequest :=
  {| ServiceCode := "AmazonEC2";
     ProductsMaxResults := 1;
     TermFilters :=
       [ {| Field := "instanceType"; Value := instanceType |};
         {| Field := "ServiceCode"; Value := "AmazonEC2" |};
         {| Field := "capacitystatus"; Value := "Used" |};
         {| Field := "tenancy"; Value := "Shared" |};
         {| Field := "preInstalledSw"; Value := "NA" |};
         {| Field := "operatingSystem"; Value := "Linux" |} ] |}.

(** The [for ... in] loop over the instance types: one [getProducts] call
    per key, and one entry of [priceList] pushed per key. *)
Definition priceList (w : World) (o : list (string * nat)) : list (string * jsval) :=
  map (fun kv =>
         let instanceType := fst kv in
         let rawPriceList := getProducts w (getProductsRequest instanceType) in
         (instanceType, findPrice rawPriceList "USD"))
      o.

Definition pricing_calls (o : list (string * nat)) : list call :=
  map (fun kv => GetProducts (getProductsRequest (fst kv))) o.

(** [{...instance, Price: priceObject.price}]; reading [price] of an
    [undefined] [priceObject] is a TypeError. *)
Definition withPrice (prices : list (string * jsval)) (inst : option Instance)
  : result (Instance * jsval) :=
  match inst with
  | None => Throw TypeError
  | Some instance =>
      let instanceType := InstanceType instance in
      match find (fun price => String.eqb (fst price) instanceType) prices with
      | Some priceObject => Ok (instance, snd priceObject)
      | None => Throw TypeError
      end
  end.

Fixpoint instancesWithPrices (prices : list (string * jsval))
  (insts : list (option Instance)) : result (list (Instance * jsval)) :=
  match insts with
  | [] => Ok []
  | inst :: rest =>
      x <- withPrice prices inst ;;
      xs <- instancesWithPrices prices rest ;;
      Ok (x :: xs)
  end.

(** [Math.floor((date2.getTime() - date1.getTime()) / 1000)].  The
    instants are integers; for instants less than 2^53 ms apart the
    double subtraction is exact and the floor of the rounded quotient
    is the floor of the exact one, the integer computed here. *)
Definition timeDifference (date1 date2 : Z) : Z :=
  (date2 - date1) / 1000.

Local Open Scope float_scope.

(** [(instance.Price / 60 / 60) * timeDifference(LaunchTime, now)] *)
Definition costFromLaunch (Price : jsval) (launch now : Z) : float :=
  (ToNumber Price / 60 / 60) * Z2F (timeDifference launch now).

Fixpoint costs_from (clock : nat -> Z) (k : nat) (priced : list (Instance * jsval))
  : list float :=
  match priced with
  | [] => []
  | (instance, Price) :: rest =>
      costFromLaunch Price (LaunchTime instance) (clock k)
        :: costs_from clock (S k) rest
  end.

Definition totalCostPerInstanceFromLaunch (w : World)
  (priced : list (Instance * jsval)) : list float :=
  costs_from (clock w) 0 priced.

(** [reduce((accumulator, value) => accumulator + value, 0)] *)
Definition sum (costs : list float) : float :=
  fold_left (fun accumulator value => accumulator + value) costs 0.

(** [totalCost]: the sum, through [toFixed(2)] *)
Definition totalCost (costs : list float) : string :=
  toFixed2 (sum costs).

Definition putMetricDataRequest (value : float) : PutMetricDataRequest :=
  {| Namespace := "Cost_Canary/EC2";
     MetricName := "EC2_Costs";
     Dimensions := [("Total_Costs", "Dollars")];
     Unit := "Count";
     MetricValue := value |}.

Definition handler (w : World) : Run :=
  let request := describeInstancesRequest w in
  let enumerated := [DescribeInstances request] in
  let failed (cs : list call) (e : error) := {| calls := cs; outcome := Throw e |} in
  match instances (describeInstances w request) with
  | Throw e => failed enumerated e
  | Ok insts =>
      match instanceCountByType insts with
      | Throw e => failed enumerated e
      | Ok byType =>
          let priced_calls := (enumerated ++ pricing_calls byType)%list in
          match instancesWithPrices (priceList w byType) insts with
          | Throw e => failed priced_calls e
          | Ok priced =>
              let costs := totalCostPerInstanceFromLaunch w priced in
              match JSON_parse (totalCost costs) with
              | None => failed priced_calls (SyntaxError (totalCost costs))
              | Some value =>
                  {| calls := (priced_calls
                                 ++ [PutMetricData (putMetricDataRequest value)])%list;
                     outcome := Ok tt |}
              end
          end
      end
  end.

(** The datapoints an invocation published. *)
Definition published (r : Run) : list float :=
  flat_map (fun c => match c with
                     | PutMetricData req => [MetricValue req]
                     | _ => []
                     end) (calls r).

Definition pricing_queries (r : Run) : list string :=
  flat_map (fun c => match c with
                     | GetProducts req =>
                         match TermFilters req with
                         | f :: _ => [Value f]
                         | [] => []
                         end
                     | _ => []
                     end) (calls r).

Definition enumeration_requests (r : Run) : list DescribeInstancesRequest :=
  flat_map (fun c => match c with
                     | DescribeInstances req => [req]
                     | _ => []
                     end) (calls r).

(** ** The specification's vocabulary *)

Local Close Scope float_scope.
Local Open Scope list_scope.

(** The traversal order of the price search: depth-first, a value before
    what it contains, array elements by index, object properties in
    enumeration order. *)
Fixpoint visited (v : jsval) : list jsval :=
  v :: match v with
       | JArr elems => flat_map visited elems
       | JObj props =>
           flat_map (fun kv => let (_, x) := kv : string * jsval in visited x)
                    props
       | _ => []
       end.

(** A visited value that carries a truthy entry under the key. *)
Definition holds (k : string) (v : jsval) : bool :=
  ToBoolean v && ToBoolean (get v k).

(** The rate of the first, respectively last, visited value that carries
    a truthy currency entry. *)
Definition first_rate (doc : jsval) : jsval :=
  match filter (holds "USD") (visited doc) with
  | [] => JUndefined
  | o :: _ => get o "USD"
  end.

Definition last_rate (doc : jsval) : jsval :=
  match rev (filter (holds "USD") (visited doc)) with
  | [] => JUndefined
  | o :: _ => get o "USD"
  end.

(** A pricing document with two currency-keyed objects whose rates
    differ. *)
Definition two_rates : jsval :=
  JArr [JObj [("terms",
               JObj [("OnDemand",
                      JObj [("pricePerUnit", JObj [("USD", JStr "1.00")])]);
                     ("Reserved",
                      JObj [("pricePerUnit", JObj [("USD", JStr "2.00")])])])]].

(** The items of a nested array, left to right, depth first. *)
Fixpoint leaves {A : Type} (b : nested A) : list A :=
  match b with
  | Item a => [a]
  | Nested elems => flat_map leaves elems
  end.

(** The pages a provider hands out when its pagination contract is
    followed: the request is repeated with the token of the previous
    page until a page carries none ([fuel] bounds the number of
    requests). *)
Fixpoint paginate (provider : DescribeInstancesRequest -> DescribeInstancesResult)
  (req : DescribeInstancesRequest) (fuel : nat) : list DescribeInstancesResult :=
  match fuel with
  | O => []
  | S fuel' =>
      let page := provider req in
      page :: match ResultNextToken page with
              | Some token =>
                  paginate provider
                    {| Filters := Filters req;
                       MaxResults := MaxResults req;
                       NextToken := Some token |} fuel'
              | None => []
              end
  end.

(** The instances a page describes. *)
Definition page_instances (page : DescribeInstancesResult) : list Instance :=
  match Reservations page with
  | Some rs =>
      flat_map (fun r => match Instances r with
                         | Some l => l
                         | None => []
                         end) rs
  | None => []
  end.

(** The exact value of a finite double [m * 2^e], as a rational. *)
Definition exact (x : float) : Q :=
  match Prim2SF x with
  | S754_finite s m e =>
      let v := match e with
               | Zneg k => Zpos m # 2 ^ k
               | _ => inject_Z (Zpos m * 2 ^ e)
               end in
      if s then Qopp v else v
  | _ => 0%Q
  end.


(** The instance types in order of first appearance, with their counts;
    the rate the catalog resolves for an instance; the instances with
    their rates. *)
Definition types_of (insts : list Instance) : list (string * nat) :=
  fold_left (fun o i => count_type o (InstanceType i)) insts [].

Definition rate_of (w : World) (i : Instance) : jsval :=
  findPrice (getProducts w (getProductsRequest (InstanceType i))) "USD".

Definition priced_of (w : World) (insts : list Instance) : list (Instance * jsval) :=
  map (fun i => (i, rate_of w i)) insts.

(** The instants and rates of the worked examples. *)
Definition hour : Z := 3600000.

Definition linux_doc (rate : string) : jsval :=
  JArr [JObj [("product", JObj [("sku", JStr "ABC")]);
              ("terms",
               JObj [("OnDemand",
                      JObj [("ABC.X",
                             JObj [("priceDimensions",
                                    JObj [("ABC.X.Y",
                                           JObj [("unit", JStr "Hrs");
                                                 ("pricePerUnit",
                                                  JObj [("USD", JStr rate)])])])])])])]].

(** A catalog that quotes one rate for every type. *)
Definition flat_rate (rate : string) : string -> jsval :=
  fun _ => linux_doc rate.

Definition instanceTypeOf (req : GetProductsRequest) : string :=
  match TermFilters req with
  | f :: _ => Value f
  | [] => ""
  end.

(** A world whose EC2 answers by continuation token, with a catalog
    given by instance type and a clock that stands still. *)
Definition world (pages : option string -> DescribeInstancesResult)
  (catalog : string -> jsval) (now : Z) : World :=
  {| TAG_KEY := None;
     TAG_VALUE := None;
     describeInstances := fun req => pages (NextToken req);
     getProducts := fun req => catalog (instanceTypeOf req);
     clock := fun _ => now |}.

Definition one_page (insts : list Instance) : option string -> DescribeInstancesResult :=
  fun _ => {| Reservations := Some [ {| Instances := Some insts |} ];
              ResultNextToken := None |}.

Definition two_pages (first second : list Instance)
  : option string -> DescribeInstancesResult :=
  fun token =>
    match token with
    | None => {| Reservations := Some [ {| Instances := Some first |} ];
                 ResultNextToken := Some "page-2" |}
    | Some _ => {| Reservations := Some [ {| Instances := Some second |} ];
                   ResultNextToken := None |}
    end.

Definition i_a : Instance :=
  {| InstanceId := "i-0a"; InstanceType := "t4g.2xlarge"; LaunchTime := 0 |}.

Definition i_b : Instance :=
  {| InstanceId := "i-0b"; InstanceType := "m5.large"; LaunchTime := 1800000 |}.

(** An instance that reports a launch one hour after the evaluation
    instant [hour]. *)
Definition i_late : Instance :=
  {| InstanceId := "i-0c"; InstanceType := "t4g.2xlarge"; LaunchTime := 2 * hour |}.

(** Vocabulary of the proofs about texts and signs. *)
Fixpoint every (p : ascii -> bool) (s : string) : bool :=
  match s with
  | EmptyString => true
  | String c r => p c && every p r
  end.

Definition is_digit (c : ascii) : bool :=
  match digit_in 10 c with Some _ => true | None => false end.

(** Characters of a number text written by [toFixed]. *)
Definition plain (c : ascii) : bool :=
  is_digit c || Ascii.eqb c "." || Ascii.eqb c "e" || Ascii.eqb c "+".

(** Sign classes of a [spec_float]: a number of sign [sx]; the same or
    NaN; a number that is not below zero; anything but a negative
    number. *)
Definition good (sx : bool) (sf : spec_float) : Prop :=
  match sf with
  | S754_zero s | S754_infinity s | S754_finite s _ _ => s = sx
  | S754_nan => False
  end.

Definition signed_like (sx : bool) (sf : spec_float) : Prop :=
  match sf with
  | S754_zero s | S754_infinity s | S754_finite s _ _ => s = sx
  | S754_nan => True
  end.

Definition nn (sf : spec_float) : Prop :=
  match sf with
  | S754_zero _ | S754_finite false _ _ | S754_infinity false => True
  | _ => False
  end.

Definition notneg (sf : spec_float) : Prop :=
  match sf with
  | S754_finite true _ _ | S754_infinity true => False
  | _ => True
  end.

(** Vocabulary of the further properties: the distinct elements of a
    list in order of first appearance; the count the object
    [instanceCountByType] holds for a type ([0] when the type is no key);
    the doubles that are numbers; an EC2 answer without [Reservations] or
    with a reservation without [Instances]. *)
Fixpoint firsts (ts : list string) : list string :=
  match ts with
  | [] => []
  | t :: rest => t :: filter (fun u => negb (String.eqb u t)) (firsts rest)
  end.

Definition count_in (t : string) (o : list (string * nat)) : nat :=
  match find (fun kv => String.eqb (fst kv) t) o with
  | Some kv => snd kv
  | None => 0%nat
  end.

Definition finite_class (x : float) : bool :=
  match Prim2SF x with
  | S754_zero _ | S754_finite _ _ _ => true
  | _ => false
  end.

Definition malformed (r : DescribeInstancesResult) : bool :=
  match Reservations r with
  | None => true
  | Some rs =>
      existsb (fun reservation =>
                 match Instances reservation with
                 | None => true
                 | Some _ => false
                 end) rs
  end.

(** A rate that is no object: its conversion to a number cannot throw
    (an object that holds an entry named [toString] is converted by
    calling that entry, which fails). *)
Definition primitive (v : jsval) : bool :=
  match v with
  | JObj _ | JArr _ => false
  | _ => true
  end.

(** A key written in capital letters, as the currency codes are: no
    prototype of a primitive, an array or an object defines such a name,
    so that [get] is the property read [v[k]] on it. *)
Definition capital (c : ascii) : bool :=
  let n := N_of_ascii c in ((65 <=? n) && (n <=? 90))%N.

Definition currency_code (k : string) : bool :=
  negb (String.eqb k "") && every capital k.

(** The same world, with EC2 reporting other instance ids. *)
Definition with_id (f : Instance -> string) (i : Instance) : Instance :=
  {| InstanceId := f i; InstanceType := InstanceType i; LaunchTime := LaunchTime i |}.

Definition relabelled (f : Instance -> string) (w : World) : World :=
  {| TAG_KEY := TAG_KEY w;
     TAG_VALUE := TAG_VALUE w;
     describeInstances := fun req =>
       let r := describeInstances w req in
       {| Reservations :=
            option_map (map (fun reservation =>
                               {| Instances :=
                                    option_map (map (with_id f))
                                               (Instances reservation) |}))
                       (Reservations r);
          ResultNextToken := ResultNextToken r |};
     getProducts := getProducts w;
     clock := clock w |}.

(** ----------------------------------------------------------------- *)
(** * Results *)

(** ** [findPrice] *)

Lemma SerializeJSONProperty_visited (k : string) (v : jsval) :
  forall found,
    SerializeJSONProperty k found v = fold_left (replacer k) (visited v) found.
Proof.
  induction v as [ | | b | x | s | l IH | kvs IH ] using jsval_nested_ind;
    intro found; try reflexivity.
  - cbn [SerializeJSONProperty visited fold_left].
    generalize (replacer k found (JArr l)) as st.
    induction IH as [ | v l Hv _ IHl ]; intro st; [ reflexivity | ].
    cbn [fold_left flat_map]. rewrite fold_left_app, <- Hv. apply IHl.
  - cbn [SerializeJSONProperty visited fold_left].
    generalize (replacer k found (JObj kvs)) as st.
    induction IH as [ | [key v] kvs Hv _ IHl ]; intro st; [ reflexivity | ].
    cbn [fold_left flat_map]. cbn [snd] in Hv.
    rewrite fold_left_app, <- Hv. apply IHl.
Qed.

Lemma fold_replacer_last (k : string) (vs : list jsval) :
  forall found,
    fold_left (replacer k) vs found =
      match rev (filter (holds k) vs) with
      | [] => found
      | o :: _ => o
      end.
Proof.
  induction vs as [ | v vs IH ]; intro found; [ reflexivity | ].
  cbn [fold_left filter]. rewrite IH. unfold replacer. fold (holds k v).
  destruct (holds k v); [ | reflexivity ].
  cbn [rev]. destruct (rev (filter (holds k) vs)); reflexivity.
Qed.

Lemma holds_not_nullish (k : string) (o : jsval) :
  holds k o = true -> optional_USD o = get o "USD".
Proof.
  unfold holds. destruct o; cbn; try discriminate; reflexivity.
Qed.

(** The object [findPrice] ends up with is the last visited value that
    holds the key. *)
Lemma foundObj_last (doc : jsval) (k : string) :
  SerializeJSONProperty k JUndefined doc =
    match rev (filter (holds k) (visited doc)) with
    | [] => JUndefined
    | o :: _ => o
    end.
Proof.
  rewrite SerializeJSONProperty_visited. apply fold_replacer_last.
Qed.

Lemma last_filtered_in {A : Type} (p : A -> bool) (l : list A) (o : A) (rest : list A) :
  rev (filter p l) = o :: rest -> In o l /\ p o = true.
Proof.
  intro H. assert (Hin : In o (filter p l)).
  { apply in_rev. rewrite H. now left. }
  apply filter_In in Hin. exact Hin.
Qed.

(** C1, as the code has it.  [findPrice] walks the document depth first
    (a value before its content, array elements by index, object
    properties in enumeration order) and every value holding a truthy
    ["USD"] entry overwrites [foundObj]: the rate returned is that of the
    LAST such value in traversal order, [undefined] when there is
    none. *)
Theorem findPrice_last_match (doc : jsval) :
  findPrice doc "USD" = last_rate doc.
Proof.
  unfold findPrice, last_rate. rewrite foundObj_last.
  destruct (rev (filter (holds "USD") (visited doc))) as [ | o rest ] eqn:E;
    [ reflexivity | ].
  apply last_filtered_in in E. apply (holds_not_nullish "USD"), E.
Qed.

(** C1, as the specification words it, fails: on a document with two
    currency-keyed objects the rate of the second one is returned, not
    that of the first. *)
Lemma findPrice_two_rates_not_first :
  findPrice two_rates "USD" = JStr "2.00" /\
  first_rate two_rates = JStr "1.00" /\
  findPrice two_rates "USD" <> first_rate two_rates.
Proof.
  repeat split; try reflexivity. cbv. discriminate.
Qed.

(** C10.  A falsy rate counts as absent.  When every visited value has a
    falsy ["USD"] entry (the empty string, a zero, [null], or none at
    all) [findPrice] returns [undefined]; and in any document the object
    it selects is a visited value whose ["USD"] entry is truthy, whatever
    falsy entries come before or after it, so the result is [undefined]
    or that truthy rate. *)
Theorem findPrice_falsy_rate_absent (doc : jsval) :
  ((forall o, In o (visited doc) -> ToBoolean (get o "USD") = false) ->
   findPrice doc "USD" = JUndefined) /\
  (findPrice doc "USD" = JUndefined \/
   exists o, In o (visited doc) /\
             SerializeJSONProperty "USD" JUndefined doc = o /\
             ToBoolean (get o "USD") = true /\
             findPrice doc "USD" = get o "USD").
Proof.
  unfold findPrice. rewrite foundObj_last.
  destruct (rev (filter (holds "USD") (visited doc))) as [ | o rest ] eqn:E.
  - split; [ reflexivity | left; reflexivity ].
  - apply last_filtered_in in E. destruct E as [Hin Hholds]. split.
    + intro Hall. specialize (Hall o Hin). unfold holds in Hholds.
      rewrite Hall, andb_false_r in Hholds. discriminate.
    + right. exists o. repeat split; try assumption.
      * unfold holds in Hholds. apply andb_true_iff in Hholds. apply Hholds.
      * now apply (holds_not_nullish "USD").
Qed.

(** Falsy rates on concrete documents: the empty string, zero and
    [null] are skipped, also next to a truthy rate. *)
Example findPrice_empty_string :
  findPrice (JArr [JObj [("USD", JStr "")]]) "USD" = JUndefined.
Proof. reflexivity. Qed.

Example findPrice_zero :
  findPrice (JArr [JObj [("USD", JNum 0%float)]]) "USD" = JUndefined.
Proof. reflexivity. Qed.

Example findPrice_null_then_rate :
  findPrice (JArr [JObj [("a", JObj [("USD", JStr "0.5")]);
                         ("b", JObj [("USD", JNull)])]]) "USD" = JStr "0.5".
Proof. reflexivity. Qed.

(** ** [flattenArray] *)

Lemma fold_append_acc {A B : Type} (f : B -> list A) (l : list B) :
  forall acc, fold_left (fun a b => a ++ f b) l acc = acc ++ flat_map f l.
Proof.
  induction l as [ | b l IH ]; intro acc; cbn [fold_left flat_map].
  - now rewrite app_nil_r.
  - rewrite IH. now rewrite app_assoc.
Qed.

Lemma flattenElement_leaves {A : Type} (b : nested A) :
  flattenElement b = leaves b.
Proof.
  induction b as [ a | l IH ] using nested_deep_ind; [ reflexivity | ].
  cbn [flattenElement leaves]. rewrite fold_append_acc. cbn [app].
  induction IH as [ | x l Hx _ IHl ]; [ reflexivity | ].
  cbn [flat_map]. now rewrite Hx, IHl.
Qed.

(** C9.  For an array nested to any depth, [flattenArray] returns the
    items that are not arrays, left to right and depth first, in their
    relative order. *)
Theorem flattenArray_leaves {A : Type} (ary : list (nested A)) :
  flattenArray ary = flat_map leaves ary.
Proof.
  unfold flattenArray. rewrite fold_append_acc. cbn [app].
  induction ary as [ | b ary IH ]; [ reflexivity | ].
  cbn [flat_map]. now rewrite flattenElement_leaves, IH.
Qed.

Example flattenArray_three_levels :
  flattenArray [Item 1%nat; Nested [Item 2%nat; Nested [Item 3%nat; Nested []]; Item 4%nat];
                Nested []; Item 5%nat]
  = [1; 2; 3; 4; 5]%nat.
Proof. reflexivity. Qed.

(** ** Deduplication by instance type *)

Lemma has_key_In (t : string) (o : list (string * nat)) :
  has_key t o = true <-> In t (map fst o).
Proof.
  unfold has_key. rewrite existsb_exists, in_map_iff. split.
  - intros [kv [Hin Heq]]. apply String.eqb_eq in Heq. now exists kv.
  - intros [kv [Heq Hin]]. exists kv. split; [ assumption | ].
    now apply String.eqb_eq.
Qed.

Lemma increment_keys (t : string) (o : list (string * nat)) :
  map fst (increment t o) = map fst o.
Proof.
  induction o as [ | [k n] o IH ]; [ reflexivity | ].
  cbn [increment]. destruct (String.eqb k t); cbn [map fst]; now rewrite ?IH.
Qed.

Lemma count_type_keys (t : string) (o : list (string * nat)) :
  map fst (count_type o t) =
    if has_key t o then map fst o else map fst o ++ [t].
Proof.
  unfold count_type. destruct (has_key t o).
  - apply increment_keys.
  - now rewrite map_app.
Qed.

Lemma forEach_count_defined (insts : list Instance) :
  forall o,
    forEach_count (map Some insts) o =
      Ok (fold_left (fun o i => count_type o (InstanceType i)) insts o).
Proof.
  induction insts as [ | i insts IH ]; intro o; [ reflexivity | ].
  cbn [map forEach_count fold_left]. apply IH.
Qed.

Lemma instanceCountByType_defined (insts : list Instance) :
  instanceCountByType (map Some insts) = Ok (types_of insts).
Proof. apply forEach_count_defined. Qed.

Lemma count_keys_invariant (insts : list Instance) :
  forall o,
    NoDup (map fst o) ->
    let o' := fold_left (fun o i => count_type o (InstanceType i)) insts o in
    NoDup (map fst o') /\
    (forall t, In t (map fst o') <->
               In t (map fst o) \/ In t (map InstanceType insts)).
Proof.
  induction insts as [ | i insts IH ]; intros o Hnd; cbn [fold_left map].
  - split; [ assumption | ]. intro t. cbn [In]. tauto.
  - assert (Hstep : NoDup (map fst (count_type o (InstanceType i))) /\
                    (forall t, In t (map fst (count_type o (InstanceType i))) <->
                               In t (map fst o) \/ InstanceType i = t)).
    { rewrite count_type_keys.
      destruct (has_key (InstanceType i) o) eqn:Hk.
      - apply has_key_In in Hk. split; [ assumption | ].
        intro t. split; [ tauto | ]. intros [H | <-]; assumption.
      - assert (Hnot : ~ In (InstanceType i) (map fst o)).
        { intro Hin. apply has_key_In in Hin. congruence. }
        split.
        + apply NoDup_app; [ assumption | repeat constructor; intros [] | ].
          intros x Hx [<- | []]. contradiction.
        + intro t. rewrite in_app_iff. cbn [In]. tauto. }
    destruct Hstep as [Hnd' Hmem].
    destruct (IH _ Hnd') as [Hnd'' Hmem'']. split; [ assumption | ].
    intro t. rewrite Hmem'', Hmem. cbn [In]. tauto.
Qed.

Lemma types_of_distinct (insts : list Instance) :
  NoDup (map fst (types_of insts)) /\
  (forall t, In t (map fst (types_of insts)) <-> In t (map InstanceType insts)).
Proof.
  destruct (count_keys_invariant insts [] (NoDup_nil _)) as [Hnd Hmem].
  split; [ exact Hnd | ]. intro t. rewrite (Hmem t). cbn [map In]. tauto.
Qed.

(** ** The join of prices back onto the instances *)

Lemma find_priceList (w : World) (t : string) (o : list (string * nat)) :
  In t (map fst o) ->
  find (fun price => String.eqb (fst price) t) (priceList w o) =
    Some (t, findPrice (getProducts w (getProductsRequest t)) "USD").
Proof.
  induction o as [ | [k n] o IH ]; cbn [map fst In]; [ intros [] | ].
  intro Hin. cbn [priceList map find fst].
  destruct (String.eqb k t) eqn:Hk.
  - apply String.eqb_eq in Hk. now subst k.
  - apply IH. destruct Hin as [-> | Hin]; [ | assumption ].
    rewrite String.eqb_refl in Hk. discriminate.
Qed.

Lemma instancesWithPrices_defined (w : World) (o : list (string * nat))
  (insts : list Instance) :
  (forall i, In i insts -> In (InstanceType i) (map fst o)) ->
  instancesWithPrices (priceList w o) (map Some insts) = Ok (priced_of w insts).
Proof.
  induction insts as [ | i insts IH ]; intro Hall; [ reflexivity | ].
  cbn [map instancesWithPrices withPrice].
  rewrite find_priceList by (apply Hall; now left).
  cbn [bind snd]. rewrite IH by (intros j Hj; apply Hall; now right).
  reflexivity.
Qed.

Lemma pricing_queries_calls (o : list (string * nat)) (req : DescribeInstancesRequest)
  (tail : list call) :
  (forall c, In c tail -> match c with GetProducts _ => False | _ => True end) ->
  flat_map (fun c => match c with
                     | GetProducts r =>
                         match TermFilters r with
                         | f :: _ => [Value f]
                         | [] => []
                         end
                     | _ => []
                     end)
           ((DescribeInstances req :: pricing_calls o) ++ tail)
  = map fst o.
Proof.
  intro Htail. rewrite flat_map_app. cbn [flat_map app].
  assert (Ht : flat_map (fun c => match c with
                                  | GetProducts r =>
                                      match TermFilters r with
                                      | f :: _ => [Value f]
                                      | [] => []
                                      end
                                  | _ => []
                                  end) tail = []).
  { induction tail as [ | c tail IH ]; [ reflexivity | ].
    cbn [flat_map]. rewrite IH by (intros c' Hc'; apply Htail; now right).
    specialize (Htail c (or_introl eq_refl)). destruct c; try reflexivity.
    contradiction. }
  rewrite Ht, app_nil_r. unfold pricing_calls.
  induction o as [ | [k n] o IH ]; [ reflexivity | ].
  cbn [map flat_map fst getProductsRequest TermFilters Value app].
  now rewrite IH.
Qed.

Lemma no_datapoint_among (req : DescribeInstancesRequest) (o : list (string * nat)) :
  flat_map (fun c => match c with
                     | PutMetricData r => [MetricValue r]
                     | _ => []
                     end) (DescribeInstances req :: pricing_calls o) = [].
Proof.
  cbn [flat_map app]. unfold pricing_calls.
  induction o as [ | kv o IH ]; [ reflexivity | ].
  cbn [map flat_map app]. exact IH.
Qed.

(** Once the enumeration has answered with instances, the rest of the
    invocation is determined by the text of the total. *)
Section Enumerated.

Variable w : World.
Variable insts : list Instance.
Hypothesis Henum :
  instances (describeInstances w (describeInstancesRequest w)) = Ok (map Some insts).

Lemma handler_run :
  let costs := totalCostPerInstanceFromLaunch w (priced_of w insts) in
  let before := DescribeInstances (describeInstancesRequest w)
                  :: pricing_calls (types_of insts) in
  handler w =
    match JSON_parse (totalCost costs) with
    | None => {| calls := before;
                 outcome := Throw (SyntaxError (totalCost costs)) |}
    | Some value =>
        {| calls := before ++ [PutMetricData (putMetricDataRequest value)];
           outcome := Ok tt |}
    end.
Proof.
  unfold handler. rewrite Henum, instanceCountByType_defined.
  rewrite instancesWithPrices_defined.
  - reflexivity.
  - intros i Hi. apply types_of_distinct. now apply in_map.
Qed.

Lemma pricing_queries_handler :
  pricing_queries (handler w) = map fst (types_of insts).
Proof.
  rewrite handler_run. cbv zeta. unfold pricing_queries.
  destruct (JSON_parse _); cbn [calls].
  - apply pricing_queries_calls. intros c [<- | []]. exact I.
  - rewrite <- (app_nil_r (_ :: _)). apply pricing_queries_calls. intros c [].
Qed.

Lemma published_total :
  published (handler w) =
    match JSON_parse (totalCost (totalCostPerInstanceFromLaunch w (priced_of w insts))) with
    | Some value => [value]
    | None => []
    end.
Proof.
  rewrite handler_run. cbv zeta. unfold published.
  destruct (JSON_parse _) as [ value | ]; cbn [calls].
  - rewrite flat_map_app, no_datapoint_among. reflexivity.
  - apply no_datapoint_among.
Qed.

End Enumerated.

Lemma NoDup_all_same {A : Type} (t : A) (l : list A) :
  NoDup l -> l <> [] -> (forall x, In x l -> x = t) -> l = [t].
Proof.
  intros Hnd Hne Hall. destruct l as [ | a l ]; [ contradiction | ].
  assert (a = t) by (apply Hall; now left). subst a.
  destruct l as [ | b l ]; [ reflexivity | ].
  assert (b = t) by (apply Hall; right; now left). subst b.
  inversion Hnd as [ | ? ? Hnot _ ]. exfalso. apply Hnot. now left.
Qed.

(** C6.  For instances whose type names are plain names, as the type
    names of EC2 are (no array index, no name that [Object.prototype]
    defines): counting by type yields each instance type of the input
    exactly once, none missing and none added, and the handler issues
    exactly one pricing query per such type, in order of first
    appearance; any number of instances sharing one type cause a single
    query. *)
Theorem one_query_per_distinct_type (w : World) (insts : list Instance) :
  instances (describeInstances w (describeInstancesRequest w)) = Ok (map Some insts) ->
  Forall (fun i => plain_name (InstanceType i) = true) insts ->
  exists byType,
    instanceCountByType (map Some insts) = Ok byType /\
    NoDup (map fst byType) /\
    (forall t, In t (map fst byType) <-> In t (map InstanceType insts)) /\
    pricing_queries (handler w) = map fst byType /\
    (forall t, insts <> [] ->
               (forall i, In i insts -> InstanceType i = t) ->
               pricing_queries (handler w) = [t]).
Proof.
  intros Henum Hplain. exists (types_of insts).
  destruct (types_of_distinct insts) as [Hnd Hmem].
  repeat split; try assumption; try apply Hmem.
  - apply instanceCountByType_defined.
  - now apply pricing_queries_handler.
  - intros t Hne Hsame. rewrite (pricing_queries_handler w insts Henum).
    apply NoDup_all_same; [ assumption | | ].
    + destruct insts as [ | i insts ]; [ contradiction | ].
      intro Hnil. assert (Hin : In (InstanceType i) (map fst (types_of (i :: insts)))).
      { apply Hmem. now left. }
      rewrite Hnil in Hin. destruct Hin.
    + intros x Hx. apply Hmem in Hx. apply in_map_iff in Hx.
      destruct Hx as [i [<- Hi]]. now apply Hsame.
Qed.

(** C6 on a fleet of three instances of one type: one query. *)
Lemma one_query_three_instances :
  instances (describeInstances (world (one_page [i_a; i_a; i_late]) (flat_rate "3.60") hour)
               (describeInstancesRequest (world (one_page [i_a; i_a; i_late]) (flat_rate "3.60") hour)))
    = Ok (map Some [i_a; i_a; i_late]) /\
  Forall (fun i => plain_name (InstanceType i) = true) [i_a; i_a; i_late] /\
  pricing_queries (handler (world (one_page [i_a; i_a; i_late]) (flat_rate "3.60") hour))
    = ["t4g.2xlarge"].
Proof.
  assert (Hplain : Forall (fun i => plain_name (InstanceType i) = true)
                          [i_a; i_a; i_late]).
  { repeat constructor. }
  split; [ reflexivity | ]. split; [ exact Hplain | ].
  destruct (one_query_per_distinct_type
              (world (one_page [i_a; i_a; i_late]) (flat_rate "3.60") hour)
              [i_a; i_a; i_late] eq_refl Hplain)
    as [byType [_ [_ [_ [_ Hone]]]]].
  apply Hone; [ discriminate | ].
  intros i [<- | [<- | [<- | []]]]; reflexivity.
Defined.

(** ** Enumeration *)

Lemma instances_flattened (r : DescribeInstancesResult) (rs : list Reservation) :
  Reservations r = Some rs ->
  Forall (fun x => Instances x <> None) rs ->
  instances r = Ok (map Some (page_instances r)).
Proof.
  intros Hrs Hall. unfold instances, response, page_instances. rewrite Hrs.
  clear Hrs. f_equal. unfold flattenArray. rewrite fold_append_acc. cbn [app].
  induction Hall as [ | x rs Hx _ IH ]; [ reflexivity | ].
  cbn [map flat_map]. rewrite map_app, IH. f_equal.
  destruct (Instances x) as [ l | ]; [ | contradiction ].
  rewrite flattenElement_leaves. cbn [leaves]. clear.
  induction l as [ | i l IH ]; [ reflexivity | ].
  cbn [map flat_map leaves app]. now rewrite IH.
Qed.

Lemma no_enumeration_among_pricing (o : list (string * nat)) :
  flat_map (fun c => match c with
                     | DescribeInstances req => [req]
                     | _ => []
                     end) (pricing_calls o) = [].
Proof.
  unfold pricing_calls. induction o as [ | kv o IH ]; [ reflexivity | ].
  cbn [map flat_map app]. exact IH.
Qed.

Lemma handler_enumerates_once (w : World) :
  enumeration_requests (handler w) = [describeInstancesRequest w].
Proof.
  unfold enumeration_requests, handler.
  destruct (instances _) as [ insts | e ]; [ | reflexivity ].
  destruct (instanceCountByType insts) as [ byType | e ]; [ | reflexivity ].
  destruct (instancesWithPrices _ insts) as [ priced | e ].
  - destruct (JSON_parse _); cbn [calls].
    + rewrite !flat_map_app. cbn [flat_map app].
      now rewrite no_enumeration_among_pricing.
    + rewrite flat_map_app. cbn [flat_map app].
      now rewrite no_enumeration_among_pricing.
  - cbn [calls]. rewrite flat_map_app. cbn [flat_map app].
    now rewrite no_enumeration_among_pricing.
Qed.

Lemma paginate_exhausted (provider : DescribeInstancesRequest -> DescribeInstancesResult)
  (req : DescribeInstancesRequest) (fuel : nat) (page : DescribeInstancesResult) :
  ResultNextToken (provider req) = None ->
  In page (paginate provider req fuel) -> page = provider req.
Proof.
  intros Hnone. destruct fuel as [ | fuel ]; cbn [paginate]; [ intros [] | ].
  rewrite Hnone. intros [<- | []]. reflexivity.
Qed.

(** C5, as the code has it.  The handler sends exactly one
    [describeInstances] request, which fixes no page size and carries no
    continuation token, and flattens the reservations of that one answer
    in the order received.  Every instance of that answer is enumerated;
    when the answer carries no continuation token it is the only page,
    so every instance of every page is enumerated.  Pages behind a
    continuation token are never requested. *)
Theorem enumeration_single_request (w : World) :
  enumeration_requests (handler w) = [describeInstancesRequest w] /\
  MaxResults (describeInstancesRequest w) = None /\
  NextToken (describeInstancesRequest w) = None /\
  (forall rs,
      Reservations (describeInstances w (describeInstancesRequest w)) = Some rs ->
      Forall (fun r => Instances r <> None) rs ->
      instances (describeInstances w (describeInstancesRequest w)) =
        Ok (map Some (page_instances
                        (describeInstances w (describeInstancesRequest w))))) /\
  (ResultNextToken (describeInstances w (describeInstancesRequest w)) = None ->
   forall fuel page i,
     In page (paginate (describeInstances w) (describeInstancesRequest w) fuel) ->
     In i (page_instances page) ->
     In i (page_instances (describeInstances w (describeInstancesRequest w)))).
Proof.
  repeat split.
  - apply handler_enumerates_once.
  - apply instances_flattened.
  - intros Hnone fuel page i Hpage Hi.
    now rewrite <- (paginate_exhausted _ _ fuel page Hnone Hpage).
Qed.

(** C5, as the specification words it, fails: when the provider answers
    with a continuation token, the instances of the second page are on
    no enumerated sequence, and the total is published without them. *)
Lemma second_page_never_fetched :
  let w := world (two_pages [i_a] [i_b]) (flat_rate "3.60") hour in
  paginate (describeInstances w) (describeInstancesRequest w) 5 =
    [two_pages [i_a] [i_b] None; two_pages [i_a] [i_b] (Some "page-2")] /\
  In i_b (page_instances (two_pages [i_a] [i_b] (Some "page-2"))) /\
  instances (describeInstances w (describeInstancesRequest w)) = Ok [Some i_a] /\
  enumeration_requests (handler w) = [describeInstancesRequest w] /\
  pricing_queries (handler w) = ["t4g.2xlarge"] /\
  outcome (handler w) = Ok tt.
Proof.
  cbv zeta. split; [ reflexivity | ]. split; [ now left | ].
  split; [ reflexivity | ]. split; [ apply handler_enumerates_once | ].
  split; vm_compute; reflexivity.
Qed.

(** ** Doubles: NaN is absorbing *)

Local Open Scope float_scope.

Lemma mul_nan_l (x : float) : nan * x = nan.
Proof. apply Prim2SF_inj. rewrite mul_spec. reflexivity. Qed.

Lemma div_nan_l (x : float) : nan / x = nan.
Proof. apply Prim2SF_inj. rewrite div_spec. reflexivity. Qed.

Lemma add_nan_l (x : float) : nan + x = nan.
Proof. apply Prim2SF_inj. rewrite add_spec. reflexivity. Qed.

Lemma add_nan_r (x : float) : x + nan = nan.
Proof.
  apply Prim2SF_inj. rewrite add_spec.
  change (Prim2SF nan) with S754_nan. now destruct (Prim2SF x).
Qed.

Lemma fold_add_nan (costs : list float) :
  fold_left (fun accumulator value => accumulator + value) costs nan = nan.
Proof.
  induction costs as [ | c costs IH ]; [ reflexivity | ].
  cbn [fold_left]. now rewrite add_nan_l.
Qed.

Lemma sum_nan (costs : list float) : In nan costs -> sum costs = nan.
Proof.
  unfold sum. generalize 0. induction costs as [ | c costs IH ]; intros acc [].
  - subst c. cbn [fold_left]. rewrite add_nan_r. apply fold_add_nan.
  - cbn [fold_left]. now apply IH.
Qed.

Lemma cost_of_missing_price (launch now : Z) :
  costFromLaunch JUndefined launch now = nan.
Proof.
  unfold costFromLaunch. cbn [ToNumber]. now rewrite !div_nan_l, mul_nan_l.
Qed.

Lemma costs_from_nth (clock : nat -> Z) (priced : list (Instance * jsval)) :
  forall k n i Price,
    nth_error priced n = Some (i, Price) ->
    nth_error (costs_from clock k priced) n =
      Some (costFromLaunch Price (LaunchTime i) (clock (k + n)%nat)).
Proof.
  induction priced as [ | [j P] priced IH ]; intros k n i Price.
  - destruct n; discriminate.
  - destruct n as [ | n ]; cbn [nth_error costs_from].
    + intros [= -> ->]. now rewrite Nat.add_0_r.
    + intro H. rewrite (IH (S k) n i Price H). do 3 f_equal. lia.
Qed.

Lemma priced_of_nth (w : World) (insts : list Instance) (n : nat) (i : Instance) :
  nth_error insts n = Some i ->
  nth_error (priced_of w insts) n = Some (i, rate_of w i).
Proof.
  intro H. unfold priced_of. now rewrite nth_error_map, H.
Qed.

(** C3, as the code has it.  When the catalog resolves no rate for the
    type of some enumerated instance, that instance's cost is NaN (never
    zero), the sum is NaN, its text is ["NaN"], and the invocation fails
    with the SyntaxError [JSON.parse] raises on that text: all pricing
    queries have been made, no datapoint is published.  The error
    carries the rejected text only. *)
Theorem missing_price_aborts (w : World) (insts : list Instance) (n : nat)
  (i : Instance) :
  instances (describeInstances w (describeInstancesRequest w)) = Ok (map Some insts) ->
  nth_error insts n = Some i ->
  rate_of w i = JUndefined ->
  nth_error (totalCostPerInstanceFromLaunch w (priced_of w insts)) n = Some nan /\
  totalCost (totalCostPerInstanceFromLaunch w (priced_of w insts)) = "NaN"%string /\
  handler w = {| calls := DescribeInstances (describeInstancesRequest w)
                            :: pricing_calls (types_of insts);
                 outcome := Throw (SyntaxError "NaN") |} /\
  published (handler w) = [].
Proof.
  intros Henum Hi Hrate.
  assert (Hcost : nth_error (totalCostPerInstanceFromLaunch w (priced_of w insts)) n
                    = Some nan).
  { unfold totalCostPerInstanceFromLaunch.
    rewrite (costs_from_nth _ _ 0 n i (rate_of w i) (priced_of_nth w insts n i Hi)).
    now rewrite Hrate, cost_of_missing_price. }
  assert (Htext : totalCost (totalCostPerInstanceFromLaunch w (priced_of w insts))
                    = "NaN"%string).
  { unfold totalCost. rewrite sum_nan; [ reflexivity | ].
    eapply nth_error_In; eassumption. }
  assert (Hrun := handler_run w insts Henum). cbv zeta in Hrun.
  rewrite Htext in Hrun. change (JSON_parse "NaN") with (@None float) in Hrun.
  repeat split; try assumption.
  rewrite Hrun. unfold published. cbn [calls]. apply no_datapoint_among.
Qed.

(** C3, as the specification words it, fails: the error does not name
    the offending instance or type.  Two fleets whose unpriced instances
    differ in id and in type fail with the same error. *)
Lemma missing_price_error_is_anonymous :
  outcome (handler (world (one_page [i_a]) (fun _ => JArr []) hour))
    = Throw (SyntaxError "NaN") /\
  outcome (handler (world (one_page [i_b]) (fun _ => JArr []) hour))
    = Throw (SyntaxError "NaN") /\
  InstanceId i_a <> InstanceId i_b /\
  InstanceType i_a <> InstanceType i_b.
Proof.
  repeat split; try reflexivity; discriminate.
Qed.

(** C3 on a fleet of two instances, the second of a type the catalog
    does not quote: nothing is published. *)
Lemma missing_price_one_of_two :
  instances (describeInstances
               (world (one_page [i_a; i_b])
                      (fun t => if String.eqb t "m5.large" then JArr []
                                else linux_doc "3.60") hour)
               (describeInstancesRequest
                  (world (one_page [i_a; i_b])
                         (fun t => if String.eqb t "m5.large" then JArr []
                                   else linux_doc "3.60") hour)))
    = Ok (map Some [i_a; i_b]) /\
  published (handler (world (one_page [i_a; i_b])
                            (fun t => if String.eqb t "m5.large" then JArr []
                                      else linux_doc "3.60") hour)) = [].
Proof.
  split; [ reflexivity | ].
  apply (missing_price_aborts
           (world (one_page [i_a; i_b])
                  (fun t => if String.eqb t "m5.large" then JArr []
                            else linux_doc "3.60") hour)
           [i_a; i_b] 1 i_b); reflexivity.
Defined.

(** ** An empty fleet *)

Lemma no_instances (r : DescribeInstancesResult) (rs : list Reservation) :
  Reservations r = Some rs ->
  Forall (fun x => Instances x = Some []) rs ->
  instances r = Ok (map Some []).
Proof.
  intros Hrs Hall.
  rewrite (instances_flattened r rs Hrs).
  - unfold page_instances. rewrite Hrs. do 2 f_equal. clear Hrs.
    induction Hall as [ | x rs Hx _ IH ]; [ reflexivity | ].
    cbn [flat_map]. now rewrite Hx, IH.
  - eapply Forall_impl; [ | exact Hall ]. cbn. intros x Hx. now rewrite Hx.
Qed.

(** C4.  When the enumeration describes no instance (no reservation, or
    reservations whose instance lists are empty), the total is the text
    ["0.00"], the invocation succeeds, makes no pricing query and
    publishes exactly one datapoint, of value 0. *)
Theorem empty_fleet_publishes_zero (w : World) (rs : list Reservation) :
  Reservations (describeInstances w (describeInstancesRequest w)) = Some rs ->
  Forall (fun r => Instances r = Some []) rs ->
  totalCost [] = "0.00"%string /\
  handler w = {| calls := [DescribeInstances (describeInstancesRequest w);
                           PutMetricData (putMetricDataRequest 0)];
                 outcome := Ok tt |} /\
  published (handler w) = [0].
Proof.
  intros Hrs Hall.
  assert (Hrun := handler_run w [] (no_instances _ rs Hrs Hall)).
  cbv zeta in Hrun. cbn [priced_of map totalCostPerInstanceFromLaunch costs_from] in Hrun.
  change (JSON_parse (totalCost [])) with (Some 0) in Hrun.
  split; [ reflexivity | ]. split; rewrite Hrun; reflexivity.
Qed.

(** C4 on an answer with two reservations and no instance. *)
Lemma empty_fleet_two_reservations :
  published
    (handler (world (fun _ => {| Reservations := Some [ {| Instances := Some [] |};
                                                        {| Instances := Some [] |} ];
                                 ResultNextToken := None |})
                    (flat_rate "3.60") hour)) = [0].
Proof.
  apply (empty_fleet_publishes_zero
           (world (fun _ => {| Reservations := Some [ {| Instances := Some [] |};
                                                      {| Instances := Some [] |} ];
                               ResultNextToken := None |})
                  (flat_rate "3.60") hour)
           [ {| Instances := Some [] |}; {| Instances := Some [] |} ]).
  - reflexivity.
  - repeat constructor.
Defined.

(** ** The cost accrued by one instance *)

(** C7, as the code has it.  The cost of the [k]-th enumerated instance
    is the double product [(rate / 60 / 60) * elapsed], where [rate] is
    the number read from the rate resolved for the instance's own type
    and [elapsed] is the whole number of seconds
    [floor((now - launchTime) / 1000)].  The elapsed time is not
    clamped: it is at least zero exactly when the launch is not after
    the evaluation instant, and negative otherwise.  A rate of 3.60 over
    3600 seconds costs 3.60 to within 1e-6. *)
Theorem accrued_cost_formula (w : World) (insts : list Instance) (k : nat)
  (i : Instance) :
  nth_error insts k = Some i ->
  exists priced,
    instancesWithPrices (priceList w (types_of insts)) (map Some insts) = Ok priced /\
    nth_error priced k = Some (i, rate_of w i) /\
    nth_error (totalCostPerInstanceFromLaunch w priced) k =
      Some ((ToNumber (rate_of w i) / 60 / 60)
            * Z2F ((clock w k - LaunchTime i) / 1000)) /\
    (LaunchTime i <= clock w k ->
     timeDifference (LaunchTime i) (clock w k)
       = Z.max 0 (timeDifference (LaunchTime i) (clock w k)))%Z /\
    (clock w k < LaunchTime i ->
     timeDifference (LaunchTime i) (clock w k) < 0)%Z /\
    timeDifference 0 hour = 3600%Z /\
    (Qabs (exact (costFromLaunch (JStr "3.60") 0 hour) - (36 # 10)) <= 1 # 1000000)%Q.
Proof.
  intro Hi. exists (priced_of w insts). split; [ | split; [ | split ] ].
  - apply instancesWithPrices_defined. intros j Hj.
    apply types_of_distinct. now apply in_map.
  - now apply priced_of_nth.
  - unfold totalCostPerInstanceFromLaunch.
    rewrite (costs_from_nth _ _ 0 k i (rate_of w i) (priced_of_nth w insts k i Hi)).
    reflexivity.
  - unfold timeDifference. repeat split.
    + intro Hle. rewrite Z.max_r; [ reflexivity | ].
      apply Z.div_pos; lia.
    + intro Hlt. apply Z.div_lt_upper_bound; lia.
    + vm_compute. discriminate.
Qed.

(** C7 on one instance launched an hour before the evaluation, at a
    rate of 3.60 an hour: the cost is the double 3.6. *)
Lemma accrued_cost_one_hour :
  nth_error [i_a] 0 = Some i_a /\
  exists priced,
    instancesWithPrices
      (priceList (world (one_page [i_a]) (flat_rate "3.60") hour) (types_of [i_a]))
      (map Some [i_a]) = Ok priced /\
    nth_error (totalCostPerInstanceFromLaunch
                 (world (one_page [i_a]) (flat_rate "3.60") hour) priced) 0
      = Some 0x1.ccccccccccccdp+1.
Proof.
  split; [ reflexivity | ].
  destruct (accrued_cost_formula (world (one_page [i_a]) (flat_rate "3.60") hour)
              [i_a] 0 i_a eq_refl) as [priced [Hp [_ [Hc _]]]].
  exists priced. split; [ exact Hp | ]. rewrite Hc. reflexivity.
Defined.

(** C7, as the specification words it, fails.  An instance whose launch
    is reported one hour after the evaluation instant accrues the
    negative cost -3.60, where the clamped formula gives zero; and the
    double computed through [/ 60 / 60] is not always the one computed
    through [/ 3600]: a rate of 0.16 over one hour costs
    0.15999999999999998. *)
Lemma cost_not_clamped :
  timeDifference (2 * hour) hour = (-3600)%Z /\
  costFromLaunch (JStr "3.60") (2 * hour) hour = (-0x1.ccccccccccccdp+1) /\
  (ToNumber (JStr "3.60") / 3600) * Z2F (Z.max 0 (timeDifference (2 * hour) hour)) = 0 /\
  costFromLaunch (JStr "0.16") 0 hour = 0x1.47ae147ae147ap-3 /\
  (ToNumber (JStr "0.16") / 3600) * Z2F (Z.max 0 (timeDifference 0 hour))
    = 0x1.47ae147ae147bp-3.
Proof.
  repeat split; reflexivity.
Qed.

(** ** Number texts *)

Module Texts.

Local Open Scope string_scope.

(** Digit strings: what [digits] writes, [radix_value] reads back. *)
Lemma every_app p a b : every p (a ++ b) = every p a && every p b.
Proof.
  induction a as [ | c a IH ]; [ reflexivity | ].
  cbn [append every]. now rewrite IH, andb_assoc.
Qed.

Lemma every_impl (p q : ascii -> bool) s :
  (forall c, p c = true -> q c = true) -> every p s = true -> every q s = true.
Proof.
  intro H. induction s as [ | c s IH ]; [ reflexivity | ].
  cbn [every]. rewrite !andb_true_iff. intros [Hc Hs]. auto.
Qed.

Lemma of_uint_acc_value (d : Decimal.uint) :
  forall acc, radix_value 10 (DecimalString.NilEmpty.string_of_uint d) (Npos acc)
              = Some (Npos (Pos.of_uint_acc d acc)).
Proof.
  induction d; intro acc;
    cbn [DecimalString.NilEmpty.string_of_uint radix_value Pos.of_uint_acc];
    [ reflexivity | .. ];
    match goal with
    | |- context [digit_in 10 ?c] =>
        change (digit_in 10 c) with (Some (N_of_ascii c - 48)%N)
    end; cbv beta iota;
    (etransitivity; [ | apply IHd ]); f_equal;
    match goal with
    | |- context [N_of_ascii ?c] =>
        let v := eval vm_compute in (N_of_ascii c - 48)%N in
        change (N_of_ascii c - 48)%N with v
    end; lia.
Qed.

Lemma of_uint_value (d : Decimal.uint) :
  radix_value 10 (DecimalString.NilEmpty.string_of_uint d) 0 = Some (N.of_uint d).
Proof.
  induction d; cbn [DecimalString.NilEmpty.string_of_uint radix_value N.of_uint Pos.of_uint];
    [ reflexivity | exact IHd | .. ];
    match goal with
    | |- context [digit_in 10 ?c] =>
        change (digit_in 10 c) with (Some (N_of_ascii c - 48)%N)
    end; cbv beta iota; apply of_uint_acc_value.
Qed.

Lemma digits_read (n : N) : radix_value 10 (digits n) 0 = Some n.
Proof.
  unfold digits. now rewrite of_uint_value, DecimalN.Unsigned.of_to.
Qed.

Lemma digits_nonempty (n : N) : digits n <> "".
Proof.
  unfold digits. assert (H : N.to_uint n <> Decimal.Nil).
  { destruct n; [ discriminate | apply DecimalPos.Unsigned.to_uint_nonnil ]. }
  destruct (N.to_uint n); [ contradiction | discriminate .. ].
Qed.

Lemma radix_value_every (s : string) :
  forall acc v, radix_value 10 s acc = Some v -> every is_digit s = true.
Proof.
  induction s as [ | c s IH ]; intros acc v; [ reflexivity | ].
  cbn [radix_value every]. unfold is_digit.
  destruct (digit_in 10 c); [ | discriminate ]. apply IH.
Qed.

Lemma every_digit_digits (n : N) : every is_digit (digits n) = true.
Proof. exact (radix_value_every _ _ _ (digits_read n)). Qed.

Lemma radix_value_shift (s : string) :
  every is_digit s = true ->
  forall acc,
    radix_value 10 s acc =
      Some (acc * 10 ^ N.of_nat (String.length s) + digits_value s)%N.
Proof.
  unfold digits_value. induction s as [ | c s IH ]; intros Hs acc.
  - cbn. f_equal. lia.
  - cbn [every] in Hs. apply andb_true_iff in Hs. destruct Hs as [Hc Hs].
    cbn [radix_value String.length]. unfold is_digit in Hc.
    destruct (digit_in 10 c) as [ d | ]; [ | discriminate ].
    rewrite (IH Hs (acc * 10 + d)%N), (IH Hs (0 * 10 + d)%N).
    f_equal. rewrite Nat2N.inj_succ, N.pow_succ_r'. lia.
Qed.

Lemma is_digits_every (s : string) :
  s <> "" -> every is_digit s = true -> is_digits s = true.
Proof.
  intros Hne Hs. unfold is_digits. rewrite (radix_value_shift s Hs).
  destruct s; [ contradiction | reflexivity ].
Qed.

Lemma is_digits_digits (n : N) : is_digits (digits n) = true.
Proof.
  apply is_digits_every; [ apply digits_nonempty | apply every_digit_digits ].
Qed.

Lemma digits_value_digits (n : N) : digits_value (digits n) = n.
Proof. unfold digits_value. now rewrite digits_read. Qed.

Lemma radix_value_app (b : N) (a s : string) :
  forall acc,
    radix_value b (a ++ s) acc =
      match radix_value b a acc with
      | Some v => radix_value b s v
      | None => None
      end.
Proof.
  induction a as [ | c a IH ]; intro acc; [ reflexivity | ].
  cbn [append radix_value]. destruct (digit_in b c); [ apply IH | reflexivity ].
Qed.

Lemma digits_value_app (a b : string) :
  every is_digit a = true -> every is_digit b = true ->
  digits_value (a ++ b) =
    (digits_value a * 10 ^ N.of_nat (String.length b) + digits_value b)%N.
Proof.
  intros Ha Hb. unfold digits_value at 1.
  rewrite radix_value_app, (radix_value_shift a Ha), (radix_value_shift b Hb).
  lia.
Qed.

(** Splitting and trimming a text that has no character to split or
    trim at. *)
Lemma split_at_none (p : ascii -> bool) (s : string) :
  every (fun c => negb (p c)) s = true -> split_at p s = (s, None).
Proof.
  induction s as [ | c s IH ]; [ reflexivity | ].
  cbn [every split_at]. rewrite andb_true_iff, negb_true_iff.
  intros [-> Hs]. now rewrite (IH Hs).
Qed.

Lemma split_at_hit (p : ascii -> bool) (a : string) (c : ascii) (b : string) :
  every (fun c => negb (p c)) a = true -> p c = true ->
  split_at p (a ++ String c b) = (a, Some b).
Proof.
  intros Ha Hc. induction a as [ | x a IH ]; cbn [append split_at].
  - now rewrite Hc.
  - cbn [every] in Ha. rewrite andb_true_iff, negb_true_iff in Ha.
    destruct Ha as [-> Ha]. now rewrite (IH Ha).
Qed.

Lemma drop_end_id (p : ascii -> bool) (s : string) :
  every (fun c => negb (p c)) s = true -> drop_end p s = s.
Proof.
  induction s as [ | c s IH ]; [ reflexivity | ].
  cbn [every drop_end]. rewrite andb_true_iff, negb_true_iff.
  intros [Hc Hs]. rewrite (IH Hs), Hc. now destruct s.
Qed.

Lemma trim_id (p : ascii -> bool) (s : string) :
  every (fun c => negb (p c)) s = true -> trim p s = s.
Proof.
  intro Hs. unfold trim.
  assert (Hd : drop_while p s = s).
  { destruct s as [ | c s ]; [ reflexivity | ].
    cbn [every] in Hs. rewrite andb_true_iff, negb_true_iff in Hs.
    cbn [drop_while]. now rewrite (proj1 Hs). }
  rewrite Hd. now apply drop_end_id.
Qed.

Lemma plain_cases (c : ascii) :
  plain c = true -> json_ws c = false /\ Ascii.eqb c "-" = false.
Proof.
  unfold plain, is_digit, digit_in, json_ws.
  destruct c as [[|] [|] [|] [|] [|] [|] [|] [|]]; cbn; intuition congruence.
Qed.

Lemma is_digit_cases (c : ascii) :
  is_digit c = true -> is_e c = false /\ is_dot c = false /\ plain c = true.
Proof.
  unfold plain, is_digit, digit_in, is_e, is_dot.
  destruct c as [[|] [|] [|] [|] [|] [|] [|] [|]]; cbn; intuition congruence.
Qed.

(** A property of digits holds of every character of a digit string. *)
Ltac digit_chars H :=
  eapply every_impl; [ | exact H ];
  let c := fresh "c" in
  let Hc := fresh "Hc" in
  let He := fresh "He" in
  let Hd := fresh "Hd" in
  let Hp := fresh "Hp" in
  intros c Hc;
  destruct (is_digit_cases c Hc) as [He [Hd Hp]];
  rewrite ?He, ?Hd, ?Hp; reflexivity.

(** On a text of plain characters [JSON.parse] neither trims nor finds a
    sign; the same text after a minus sign reads as the opposite. *)
Lemma JSON_parse_plain (t : string) :
  every plain t = true ->
  JSON_parse t = match json_number t with
                 | Some (M, E) => Some (round_decimal false M E)
                 | None => None
                 end /\
  JSON_parse (String "-" t) = match json_number t with
                              | Some (M, E) => Some (round_decimal true M E)
                              | None => None
                              end.
Proof.
  intro Ht. unfold JSON_parse. split.
  - rewrite trim_id.
    + destruct t as [ | c t ]; [ reflexivity | ].
      cbn [every] in Ht. apply andb_true_iff in Ht.
      destruct (plain_cases c (proj1 Ht)) as [_ Hm].
      destruct c as [[|] [|] [|] [|] [|] [|] [|] [|]]; try reflexivity.
      discriminate.
    + eapply every_impl; [ | exact Ht ]. intros c Hc.
      now rewrite (proj1 (plain_cases c Hc)).
  - rewrite trim_id; [ reflexivity | ].
    cbn [every]. apply andb_true_iff. split; [ reflexivity | ].
    eapply every_impl; [ | exact Ht ]. intros c Hc.
    now rewrite (proj1 (plain_cases c Hc)).
Qed.

Lemma to_uint_normal (n : N) : Decimal.unorm (N.to_uint n) = N.to_uint n.
Proof.
  rewrite <- DecimalN.Unsigned.to_of. now rewrite DecimalN.Unsigned.of_to.
Qed.

Lemma unorm_D0_inv (u v : Decimal.uint) :
  Decimal.unorm u = Decimal.D0 v -> v = Decimal.Nil.
Proof.
  unfold Decimal.unorm. pose proof (DecimalFacts.nzhead_nonzero u v) as Hnz.
  destruct (Decimal.nzhead u); intro H; try discriminate.
  - now injection H as <-.
  - contradiction.
Qed.

(** The digits of a number start with a zero only when the number is
    zero. *)
Lemma json_int_digits (n : N) : json_int (digits n) = true.
Proof.
  unfold json_int. rewrite is_digits_digits. cbn [andb].
  unfold digits. pose proof (to_uint_normal n) as Hn.
  destruct (N.to_uint n) as [ | d | d | d | d | d | d | d | d | d | d ];
    try reflexivity.
  rewrite DecimalFacts.unorm_D0 in Hn. apply unorm_D0_inv in Hn.
  now subst d.
Qed.

Lemma length_append (a b : string) :
  String.length (a ++ b) = (String.length a + String.length b)%nat.
Proof.
  induction a as [ | c a IH ]; [ reflexivity | ]. cbn. now rewrite IH.
Qed.

Lemma append_nil_r (a : string) : a ++ "" = a.
Proof.
  induction a as [ | c a IH ]; [ reflexivity | ]. cbn. now rewrite IH.
Qed.

Lemma one_digit (d : N) : (d < 10)%N -> String.length (digits d) = 1%nat.
Proof.
  intro H.
  assert (Hc : (d = 0 \/ d = 1 \/ d = 2 \/ d = 3 \/ d = 4 \/ d = 5 \/ d = 6 \/
                d = 7 \/ d = 8 \/ d = 9)%N) by lia.
  repeat (destruct Hc as [-> | Hc]; [ reflexivity | ]). now subst d.
Qed.

Lemma two_digits_shape (r : N) :
  (r < 100)%N ->
  String.length (two_digits r) = 2%nat /\
  every is_digit (two_digits r) = true /\
  digits_value (two_digits r) = r.
Proof.
  intro Hr. unfold two_digits.
  assert (H1 : (r / 10 < 10)%N) by (apply N.Div0.div_lt_upper_bound; lia).
  assert (H0 : (r mod 10 < 10)%N) by (apply N.mod_lt; lia).
  split; [ | split ].
  - rewrite length_append, (one_digit _ H1), (one_digit _ H0). reflexivity.
  - now rewrite every_app, !every_digit_digits.
  - rewrite digits_value_app by apply every_digit_digits.
    rewrite !digits_value_digits, (one_digit _ H0).
    change (10 ^ N.of_nat 1)%N with 10%N.
    rewrite N.mul_comm. symmetry. apply N.div_mod'.
Qed.

(** The fixed-point text of [n] hundredths reads as [n * 10^-2]. *)
Lemma json_number_fixed_text (n : N) :
  every plain (fixed_text n) = true /\
  json_number (fixed_text n) = Some (n, -2)%Z.
Proof.
  unfold fixed_text.
  assert (Hr : (n mod 100 < 100)%N) by (apply N.mod_lt; lia).
  destruct (two_digits_shape _ Hr) as [Hlen [Hdig Hval]].
  pose proof (every_digit_digits (n / 100)) as Hint.
  assert (Hne : two_digits (n mod 100) <> "").
  { intro E. rewrite E in Hlen. discriminate. }
  split.
  - rewrite every_app. cbn [append every]. apply andb_true_iff.
    split; [ digit_chars Hint | cbn [plain]; digit_chars Hdig ].
  - unfold json_number. rewrite split_at_none.
    + cbn [append]. rewrite split_at_hit; [ | digit_chars Hint | reflexivity ].
      rewrite json_int_digits, (is_digits_every _ Hne Hdig).
      cbn [exponent_part]. rewrite Hlen. do 2 f_equal.
      rewrite digits_value_app by assumption.
      rewrite digits_value_digits, Hval, Hlen.
      change (10 ^ N.of_nat 2)%N with 100%N.
      rewrite N.mul_comm. symmetry. apply N.div_mod'.
    + rewrite every_app. cbn [append every]. apply andb_true_iff.
      split; [ digit_chars Hint | cbn [is_e]; digit_chars Hdig ].
Qed.

Lemma JSON_parse_fixed_text (neg : bool) (n : N) :
  JSON_parse ((if neg then "-" else "") ++ fixed_text n)
    = Some (round_decimal neg n (-2)).
Proof.
  destruct (json_number_fixed_text n) as [Hplain Hnum].
  destruct (JSON_parse_plain _ Hplain) as [Hpos Hneg].
  rewrite Hnum in Hpos, Hneg. destruct neg; assumption.
Qed.

Lemma json_number_digits (X : N) :
  every plain (digits X) = true /\ json_number (digits X) = Some (X, 0%Z).
Proof.
  pose proof (every_digit_digits X) as Hint. split; [ digit_chars Hint | ].
  unfold json_number.
  rewrite split_at_none by digit_chars Hint.
  rewrite split_at_none by digit_chars Hint.
  rewrite json_int_digits. cbn [exponent_part String.length].
  rewrite append_nil_r. now rewrite digits_value_digits.
Qed.

End Texts.
Import Texts.

(** ** Signs through rounding *)

Module Rounding.

(** Rounding keeps the sign it is given: the shifted mantissa of a
    mantissa that is not negative is not negative. *)
Lemma iter_pos_invariant {A : Type} (P : A -> Prop) (f : A -> A) :
  (forall x, P x -> P (f x)) -> forall p x, P x -> P (iter_pos f p x).
Proof.
  intro Hf. induction p as [ p IH | p IH | ]; intros x Hx; cbn [iter_pos]; auto.
Qed.

Lemma shr_1_nonneg (mrs : shr_record) : (0 <= shr_m mrs)%Z -> (0 <= shr_m (shr_1 mrs))%Z.
Proof.
  destruct mrs as [m r s]. cbn [shr_m]. intro H.
  destruct m as [ | [ p | p | ] | p ]; cbn; lia.
Qed.

Lemma shr_fexp_nonneg (m e : Z) (l : location) :
  (0 <= m)%Z -> (0 <= shr_m (fst (shr_fexp prec emax m e l)))%Z.
Proof.
  intro H. unfold shr_fexp, shr.
  assert (H0 : (0 <= shr_m (shr_record_of_loc m l))%Z).
  { destruct l as [ | [ | | ] ]; exact H. }
  destruct (_ - e)%Z; cbn [fst]; try exact H0.
  apply (iter_pos_invariant (fun mrs => (0 <= shr_m mrs)%Z)); [ | exact H0 ].
  apply shr_1_nonneg.
Qed.

Lemma round_nearest_even_nonneg (m : Z) (l : location) :
  (0 <= m)%Z -> (0 <= round_nearest_even m l)%Z.
Proof.
  intro H. destruct l as [ | [ | | ] ]; cbn; try lia. destruct (Z.even m); lia.
Qed.

Lemma binary_round_aux_signed (sx : bool) (m e : Z) (l : location) :
  signed_like sx (binary_round_aux prec emax sx m e l).
Proof.
  unfold binary_round_aux.
  destruct (shr_fexp prec emax m e l) as [mrs' e'].
  destruct (shr_fexp prec emax _ e' loc_Exact) as [mrs'' e''].
  destruct (shr_m mrs''); cbn; auto. destruct (_ <=? _)%Z; reflexivity.
Qed.

Lemma binary_round_aux_good (sx : bool) (m e : Z) (l : location) :
  (0 <= m)%Z -> good sx (binary_round_aux prec emax sx m e l).
Proof.
  intro H. unfold binary_round_aux.
  pose proof (shr_fexp_nonneg m e l H) as H1.
  destruct (shr_fexp prec emax m e l) as [mrs' e']. cbn [fst] in H1.
  pose proof (shr_fexp_nonneg _ e' loc_Exact
                (round_nearest_even_nonneg _ (loc_of_shr_record mrs') H1)) as H2.
  destruct (shr_fexp prec emax _ e' loc_Exact) as [mrs'' e'']. cbn [fst] in H2.
  destruct (shr_m mrs'') as [ | p | p ];
    [ reflexivity | destruct (_ <=? _)%Z; reflexivity | lia ].
Qed.

Lemma binary_round_aux_opp (m e : Z) (l : location) :
  binary_round_aux prec emax true m e l
  = SFopp (binary_round_aux prec emax false m e l).
Proof.
  unfold binary_round_aux.
  destruct (shr_fexp prec emax m e l) as [mrs' e'].
  destruct (shr_fexp prec emax _ e' loc_Exact) as [mrs'' e''].
  destruct (shr_m mrs''); cbn; auto. destruct (_ <=? _)%Z; reflexivity.
Qed.

Lemma binary_round_good (sx : bool) (m : positive) (e : Z) :
  good sx (binary_round prec emax sx m e).
Proof.
  unfold binary_round. destruct (shl_align _ _ _) as [mz ez].
  apply binary_round_aux_good. lia.
Qed.

Lemma binary_round_opp (m : positive) (e : Z) :
  binary_round prec emax true m e = SFopp (binary_round prec emax false m e).
Proof.
  unfold binary_round. destruct (shl_align _ _ _) as [mz ez].
  apply binary_round_aux_opp.
Qed.

Lemma SF2Prim_opp (sf : spec_float) :
  signed_like false sf -> SF2Prim (SFopp sf) = (- SF2Prim sf)%float.
Proof.
  destruct sf as [ [ | ] | [ | ] | | [ | ] m e ]; cbn [signed_like]; intro H;
    try discriminate; reflexivity.
Qed.

(** Converting a number that is not negative to a double gives a double
    that is not negative, whatever its mantissa and exponent. *)
Lemma Prim2SF_SF2Prim_nn (sf : spec_float) :
  good false sf -> nn (Prim2SF (SF2Prim sf)).
Proof.
  destruct sf as [ s | s | | s m e ]; cbn [good]; intro H; try contradiction; subst s.
  - exact I.
  - exact I.
  - cbn [SF2Prim]. rewrite Z_ldexp_spec, of_uint63_spec.
    pose proof (Uint63.to_Z_bounded (Uint63.of_Z (Zpos m))) as Hb.
    destruct (Uint63.to_Z (Uint63.of_Z (Zpos m))) as [ | p | p ]; [ exact I | | lia ].
    cbn [binary_normalize].
    pose proof (binary_round_good false p 0) as Hg.
    destruct (binary_round prec emax false p 0) as [ s | s | | s m' e' ];
      cbn [good] in Hg; try contradiction; subst s; cbn [SFldexp]; try exact I.
    pose proof (binary_round_good false m' (e' + e)) as Hg.
    destruct (binary_round prec emax false m' (e' + e)) as [ s | [|] | | [|] m'' e'' ];
      cbn [good] in Hg; try contradiction; try discriminate; exact I.
Qed.

Lemma ltb_zero_notneg (x : float) :
  (x <? 0)%float = false <-> notneg (Prim2SF x).
Proof.
  rewrite ltb_spec. change (Prim2SF 0) with (S754_zero false).
  destruct (Prim2SF x) as [ s | [|] | | [|] m e ]; cbn; intuition congruence.
Qed.

Lemma leb_zero_nn (x : float) :
  nn (Prim2SF x) -> (0 <=? x)%float = true.
Proof.
  rewrite leb_spec. change (Prim2SF 0) with (S754_zero false).
  destruct (Prim2SF x) as [ s | [|] | | [|] m e ]; cbn; intuition congruence.
Qed.

Lemma nn_notneg (sf : spec_float) : nn sf -> notneg sf.
Proof. destruct sf as [ s | [|] | | [|] m e ]; cbn; auto. Qed.

Lemma Z2F_nn (z : Z) : (0 <= z)%Z -> nn (Prim2SF (Z2F z)).
Proof.
  intro H. unfold Z2F. apply Prim2SF_SF2Prim_nn.
  destruct z as [ | p | p ]; [ reflexivity | apply binary_round_good | lia ].
Qed.

(** Division by a positive number, multiplication by a number that is
    not negative and addition keep a double from being negative. *)
Lemma div_positive_notneg (x y : float) (m : positive) (e : Z) :
  Prim2SF y = S754_finite false m e ->
  notneg (Prim2SF x) -> notneg (Prim2SF (x / y)).
Proof.
  intros Hy Hx. rewrite div_spec, Hy. unfold SF64div, SFdiv.
  destruct (Prim2SF x) as [ s | [|] | | [|] mx ex ]; cbn in *;
    try contradiction; try exact I.
  destruct (SFdiv_core_binary _ _ _ _ _ _) as [[mz ez] lz].
  pose proof (binary_round_aux_signed false mz ez lz) as Hs.
  destruct (binary_round_aux _ _ _ _ _ _) as [ s | s | | s m' e' ];
    cbn in *; subst; exact I.
Qed.

Lemma mul_nn_notneg (x y : float) :
  notneg (Prim2SF x) -> nn (Prim2SF y) -> notneg (Prim2SF (x * y)).
Proof.
  intros Hx Hy. rewrite mul_spec. unfold SF64mul, SFmul.
  destruct (Prim2SF x) as [ sx | [|] | | [|] mx ex ];
    destruct (Prim2SF y) as [ sy | [|] | | [|] my ey ]; cbn in *;
    try contradiction; try exact I.
  pose proof (binary_round_aux_signed false (Zpos (mx * my)) (ex + ey) loc_Exact) as Hs.
  destruct (binary_round_aux _ _ _ _ _ _) as [ s | s | | s m' e' ];
    cbn in *; subst; exact I.
Qed.

Lemma add_notneg (x y : float) :
  notneg (Prim2SF x) -> notneg (Prim2SF y) -> notneg (Prim2SF (x + y)).
Proof.
  intros Hx Hy. rewrite add_spec. unfold SF64add, SFadd.
  destruct (Prim2SF x) as [ [|] | [|] | | [|] mx ex ];
    destruct (Prim2SF y) as [ [|] | [|] | | [|] my ey ]; cbn in *;
    try contradiction; try exact I.
  pose proof (binary_round_good false
                (fst (shl_align mx ex (Z.min ex ey)) + fst (shl_align my ey (Z.min ex ey)))
                (Z.min ex ey)) as Hg.
  destruct (binary_round _ _ _ _ _) as [ s | s | | s m' e' ];
    cbn in *; subst; try contradiction; exact I.
Qed.

Lemma SFdiv_core_nonneg (m1 m2 : positive) (e1 e2 : Z) :
  (0 <= fst (fst (SFdiv_core_binary prec emax (Zpos m1) e1 (Zpos m2) e2)))%Z.
Proof.
  unfold SFdiv_core_binary.
  set (s := (e1 - e2 - _)%Z).
  set (m' := match s with Zpos _ => Z.shiftl (Zpos m1) s | Z0 => Zpos m1 | Zneg _ => 0%Z end).
  assert (Hm : (0 <= m')%Z).
  { unfold m'. destruct s; try lia. apply Z.shiftl_nonneg. lia. }
  pose proof (Z.div_pos m' (Zpos m2) Hm eq_refl) as Hq.
  unfold Z.div in Hq. destruct (Z.div_eucl m' (Zpos m2)) as [q r]. exact Hq.
Qed.

Lemma pow10_pos (m : positive) (E : Z) :
  (0 <= E)%Z -> exists p, (Zpos m * 10 ^ E)%Z = Zpos p.
Proof.
  intro H. assert (Hp : (0 < Zpos m * 10 ^ E)%Z).
  { apply Z.mul_pos_pos; [ lia | apply Z.pow_pos_nonneg; lia ]. }
  destruct (Zpos m * 10 ^ E)%Z as [ | p | p ]; try lia. now exists p.
Qed.

Lemma round_decimal_nn (M : N) (E : Z) :
  nn (Prim2SF (round_decimal false M E)).
Proof.
  unfold round_decimal. destruct M as [ | m ]; [ exact I | ].
  destruct E as [ | E | k ].
  - apply Prim2SF_SF2Prim_nn.
    destruct (pow10_pos m 0 (Z.le_refl 0)) as [p ->]. apply binary_round_good.
  - apply Prim2SF_SF2Prim_nn.
    destruct (pow10_pos m (Zpos E) (Pos2Z.is_nonneg E)) as [p ->].
    apply binary_round_good.
  - apply Prim2SF_SF2Prim_nn. unfold SFdiv.
    pose proof (SFdiv_core_nonneg m (10 ^ k) 0 0) as Hq.
    destruct (SFdiv_core_binary _ _ _ _ _ _) as [[mz ez] lz].
    now apply binary_round_aux_good.
Qed.

Lemma round_decimal_opp (M : N) (E : Z) :
  round_decimal true M E = (- round_decimal false M E)%float.
Proof.
  unfold round_decimal. destruct M as [ | m ]; [ reflexivity | ].
  destruct E as [ | E | k ].
  - destruct (pow10_pos m 0 (Z.le_refl 0)) as [p ->]. cbn [cond_Zopp Z.opp binary_normalize].
    rewrite binary_round_opp. apply SF2Prim_opp.
    pose proof (binary_round_good false p 0) as Hg.
    destruct (binary_round _ _ _ _ _); cbn in *; auto.
  - destruct (pow10_pos m (Zpos E) (Pos2Z.is_nonneg E)) as [p ->].
    cbn [cond_Zopp Z.opp binary_normalize].
    rewrite binary_round_opp. apply SF2Prim_opp.
    pose proof (binary_round_good false p 0) as Hg.
    destruct (binary_round _ _ _ _ _); cbn in *; auto.
  - unfold SFdiv. cbn [xorb].
    destruct (SFdiv_core_binary _ _ _ _ _ _) as [[mz ez] lz].
    rewrite binary_round_aux_opp. apply SF2Prim_opp, binary_round_aux_signed.
Qed.

(** *** An integer that fits the format is its own rounding *)

Lemma iter_pos_nat {A : Type} (f : A -> A) (p : positive) (x : A) :
  iter_pos f p x = Nat.iter (Pos.to_nat p) f x.
Proof.
  revert x. induction p as [ p IH | p IH | ]; intro x; cbn [iter_pos].
  - rewrite !IH, Pos2Nat.inj_xI.
    replace (S (2 * Pos.to_nat p)) with (Pos.to_nat p + (Pos.to_nat p + 1))%nat by lia.
    now rewrite !Nat.iter_add.
  - rewrite !IH, Pos2Nat.inj_xO.
    replace (2 * Pos.to_nat p)%nat with (Pos.to_nat p + Pos.to_nat p)%nat by lia.
    now rewrite Nat.iter_add.
  - reflexivity.
Qed.

Lemma shr_exact_nat (n : nat) (m : positive) :
  Nat.iter n shr_1 {| shr_m := Zpos (Nat.iter n xO m); shr_r := false; shr_s := false |}
  = {| shr_m := Zpos m; shr_r := false; shr_s := false |}.
Proof.
  induction n as [ | n IH ]; [ reflexivity | ].
  rewrite Nat.iter_succ_r. cbn [Nat.iter shr_1 orb]. exact IH.
Qed.

Lemma digits2_shifted (n : nat) (m : positive) :
  Zpos (digits2_pos (Nat.iter n xO m)) = (Zpos (digits2_pos m) + Z.of_nat n)%Z.
Proof.
  induction n as [ | n IH ]; [ cbn; lia | ].
  change (Nat.iter (S n) xO m) with (xO (Nat.iter n xO m)).
  cbn [digits2_pos]. rewrite Pos2Z.inj_succ, IH. lia.
Qed.

Lemma shifted_value (n : nat) (m : positive) :
  Zpos (Nat.iter n xO m) = (Zpos m * 2 ^ Z.of_nat n)%Z.
Proof.
  induction n as [ | n IH ]; [ cbn; lia | ].
  change (Nat.iter (S n) xO m) with (xO (Nat.iter n xO m)).
  rewrite Pos2Z.inj_xO, IH, Nat2Z.inj_succ, Z.pow_succ_r by lia.
  lia.
Qed.

Lemma binary_normalize_exact (m : positive) (e : Z) :
  bounded prec emax m e = true -> (0 <= e)%Z ->
  binary_normalize prec emax (Zpos m * 2 ^ e) 0 false = S754_finite false m e.
Proof.
  intros Hb He. unfold bounded, canonical_mantissa in Hb.
  apply andb_true_iff in Hb. destruct Hb as [Hc Hmax].
  apply Z.eqb_eq in Hc. apply Z.leb_le in Hmax.
  set (n := Z.to_nat e).
  assert (En : e = Z.of_nat n) by (unfold n; lia).
  rewrite En at 1. rewrite <- shifted_value. cbn [binary_normalize].
  unfold binary_round, shl_align.
  rewrite digits2_shifted, <- En, Z.add_0_r, Hc, Z.sub_0_r.
  assert (Hshl : match e with Zneg d => (Pos.iter xO (Nat.iter n xO m) d, e)
                 | _ => (Nat.iter n xO m, 0%Z) end = (Nat.iter n xO m, 0%Z)).
  { destruct e; try reflexivity. lia. }
  rewrite Hshl. unfold binary_round_aux, shr_fexp. cbn [Zdigits2].
  rewrite digits2_shifted, <- En, Z.add_0_r, Hc, Z.sub_0_r.
  cbn [shr_record_of_loc].
  assert (Hshr : shr {| shr_m := Zpos (Nat.iter n xO m); shr_r := false; shr_s := false |} 0 e
                 = ({| shr_m := Zpos m; shr_r := false; shr_s := false |}, e)).
  { unfold shr. destruct e as [ | p | p ]; [ | | lia ].
    - replace n with 0%nat by (unfold n; reflexivity). reflexivity.
    - rewrite iter_pos_nat. replace (Pos.to_nat p) with n by (unfold n; lia).
      now rewrite shr_exact_nat. }
  rewrite Hshr. cbn [shr_m loc_of_shr_record round_nearest_even Zdigits2].
  rewrite Hc, Z.sub_diag. cbn [shr shr_m].
  apply Z.leb_le in Hmax. now rewrite Hmax.
Qed.

(** *** The integer of hundredths chosen by [toFixed(2)] *)


End Rounding.
Import Rounding.

(** ** [toFixed(2)] and [JSON.parse] *)

Local Open Scope string_scope.

Lemma every_rev_string (p : ascii -> bool) (s : string) :
  forall acc, every p (rev_string acc s) = every p acc && every p s.
Proof.
  induction s as [ | c s IH ]; intro acc; cbn [rev_string every].
  - now rewrite andb_true_r.
  - rewrite IH. cbn [every]. destruct (p c), (every p acc), (every p s); reflexivity.
Qed.

Lemma every_strip_zeros (p : ascii -> bool) (s : string) :
  every p s = true -> every p (strip_zeros s) = true.
Proof.
  induction s as [ | c s IH ]; [ reflexivity | ].
  intro H. cbn [strip_zeros].
  destruct c as [[|] [|] [|] [|] [|] [|] [|] [|]]; try exact H.
  apply IH. cbn [every] in H. now apply andb_true_iff in H.
Qed.

Lemma plain_digits (n : N) : every plain (digits n) = true.
Proof. pose proof (every_digit_digits n) as H. digit_chars H. Qed.

Lemma exponent_text_plain (s : N) (p : Z) : every plain (exponent_text s p) = true.
Proof.
  unfold exponent_text.
  set (e := "e+" ++ digits _).
  assert (He : every plain e = true).
  { unfold e. cbn [append every]. now rewrite plain_digits. }
  pose proof (plain_digits s) as Hds.
  destruct (digits s) as [ | d rest ]; [ exact He | ].
  cbn [every] in Hds. apply andb_true_iff in Hds. destruct Hds as [Hd Hrest].
  assert (Hfrac : every plain (rev_string "" (strip_zeros (rev_string "" rest))) = true).
  { rewrite every_rev_string. cbn [every andb]. apply every_strip_zeros.
    rewrite every_rev_string. exact Hrest. }
  destruct (rev_string "" (strip_zeros (rev_string "" rest))) as [ | c frac ].
  - cbn [every]. now rewrite Hd, He.
  - cbn [every append] in *. rewrite Hd. cbn [andb plain].
    apply andb_true_iff in Hfrac. destruct Hfrac as [Hc Hfrac].
    now rewrite Hc, every_app, Hfrac, He.
Qed.

(** Whatever [Number::toString] writes for a double of at least 1e21
    is a plain text that reads back as that double. *)
Lemma reads_back_sound (x : float) (text : string) :
  reads_back x text = true -> JSON_parse text = Some x.
Proof.
  unfold reads_back. destruct (JSON_parse text) as [ y | ]; [ | discriminate ].
  intro H. apply FloatAxioms.Leibniz.eqb_spec in H. now subst y.
Qed.

Lemma shortest_sound (x : float) (X : N) (nd : nat) :
  forall fuel k text,
    shortest x X nd k fuel = Some text ->
    every plain text = true /\ JSON_parse text = Some x.
Proof.
  induction fuel as [ | fuel IH ]; intros k text; [ discriminate | ].
  cbn [shortest].
  destruct (reads_back x (exponent_text _ _)) eqn:Hlo;
    destruct (reads_back x (exponent_text (_ + 1) _)) eqn:Hhi.
  - destruct (_ || _); intros [= <-];
      (split; [ apply exponent_text_plain | now apply reads_back_sound ]).
  - intros [= <-]. split; [ apply exponent_text_plain | now apply reads_back_sound ].
  - intros [= <-]. split; [ apply exponent_text_plain | now apply reads_back_sound ].
  - apply IH.
Qed.

Lemma NumberToString_large_sound (y : float) (m : positive) (e : Z) :
  Prim2SF y = S754_finite false m e -> (0 <= e)%Z ->
  every plain (NumberToString_large y m e) = true /\
  JSON_parse (NumberToString_large y m e) = Some y.
Proof.
  intros Hy He. unfold NumberToString_large.
  destruct (shortest _ _ _ _ _) as [ text | ] eqn:Hs.
  - exact (shortest_sound _ _ _ _ _ _ Hs).
  - destruct (json_number_digits (Z.to_N (Zpos m * 2 ^ e))) as [Hplain Hnum].
    split; [ exact Hplain | ].
    rewrite (proj1 (JSON_parse_plain _ Hplain)), Hnum. f_equal.
    assert (Hp : (0 < Zpos m * 2 ^ e)%Z).
    { apply Z.mul_pos_pos; [ lia | apply Z.pow_pos_nonneg; lia ]. }
    remember (Zpos m * 2 ^ e)%Z as V eqn:E. destruct V as [ | p | p ]; try lia.
    cbn [Z.to_N round_decimal cond_Zopp].
    change (10 ^ 0)%Z with 1%Z. rewrite Z.mul_1_r, E.
    rewrite binary_normalize_exact; [ | | exact He ].
    + rewrite <- Hy. apply SF2Prim_Prim2SF.
    + pose proof (Prim2SF_valid y) as Hv. rewrite Hy in Hv. exact Hv.
Qed.

Lemma large_exponent (x : float) (s : bool) (m : positive) (e : Z) :
  Prim2SF x = S754_finite s m e ->
  (ten21 <=? abs x)%float = true -> (0 <= e)%Z.
Proof.
  intros Hx Hle. rewrite leb_spec, abs_spec, Hx in Hle.
  change (Prim2SF ten21) with (S754_finite false 7629394531250000 17) in Hle.
  cbn [SFabs] in Hle. unfold SFleb, SFcompare in Hle.
  destruct (Z.compare_spec 17 e) as [ C | C | C ]; [ lia | lia | discriminate ].
Qed.

Lemma opp_abs_negative (x : float) (m : positive) (e : Z) :
  Prim2SF x = S754_finite true m e -> (- abs x)%float = x.
Proof.
  intro Hx. apply Prim2SF_inj. now rewrite opp_spec, abs_spec, Hx.
Qed.

Lemma abs_positive (x : float) (m : positive) (e : Z) :
  Prim2SF x = S754_finite false m e -> abs x = x.
Proof.
  intro Hx. apply Prim2SF_inj. now rewrite abs_spec, Hx.
Qed.

(** What [toFixed(2)] writes and what [JSON.parse] reads back, by the
    class of the number. *)
Lemma toFixed2_cases (x : float) :
  match Prim2SF x with
  | S754_nan | S754_infinity _ => JSON_parse (toFixed2 x) = None
  | S754_zero _ => toFixed2 x = "0.00" /\ JSON_parse (toFixed2 x) = Some 0%float
  | S754_finite neg m e =>
      if (ten21 <=? abs x)%float
      then JSON_parse (toFixed2 x) = Some x
      else toFixed2 x = (if neg then "-" else "") ++ fixed_text (nearest_hundredths m e)
           /\ JSON_parse (toFixed2 x)
              = Some (round_decimal neg (nearest_hundredths m e) (-2))
  end.
Proof.
  unfold toFixed2. destruct (Prim2SF x) as [ s | [|] | | neg m e ] eqn:Hx;
    try reflexivity; [ split; reflexivity | ].
  destruct (ten21 <=? abs x)%float eqn:Hbig.
  - pose proof (large_exponent x neg m e Hx Hbig) as He.
    assert (Habs : Prim2SF (abs x) = S754_finite false m e).
    { now rewrite abs_spec, Hx. }
    destruct (NumberToString_large_sound (abs x) m e Habs He) as [Hplain Hread].
    destruct (JSON_parse_plain _ Hplain) as [Hpos Hneg].
    destruct neg.
    + cbn [append]. rewrite Hneg. rewrite Hread in Hpos.
      destruct (json_number _) as [ [M E] | ]; [ | discriminate ].
      injection Hpos as Hpos. rewrite round_decimal_opp, <- Hpos.
      f_equal. now apply opp_abs_negative with m e.
    + cbn [append]. rewrite Hread. f_equal. now apply abs_positive with m e.
  - split; [ reflexivity | apply JSON_parse_fixed_text ].
Qed.

Local Open Scope list_scope.

(** ** The published total *)




(** Totals at and near a rounding boundary.  An eighth is an exact tie
    and goes up; the double written 1.005 lies below the tie and goes
    down; the double written 0.005 lies above it. *)
Example totalCost_tie : totalCost [0.125%float] = "0.13"%string.
Proof. reflexivity. Qed.

Example totalCost_tie_negative :
  totalCost [(-0.125)%float] = "-0.13"%string.
Proof. reflexivity. Qed.

Example totalCost_below_tie : totalCost [1.005%float] = "1.00"%string.
Proof. reflexivity. Qed.

Example totalCost_above_tie : totalCost [0.005%float] = "0.01"%string.
Proof. reflexivity. Qed.

(** The fleet of the specification's example: type A at 1.00 an hour for
    an hour and type B at 2.00 an hour for half an hour accrue 1.00
    each, and 2.00 is published. *)
Example two_types_two_dollars :
  handler (world (one_page [i_a; i_b])
                 (fun t => if String.eqb t "m5.large" then linux_doc "2.00"
                           else linux_doc "1.00") hour)
  = {| calls := [ DescribeInstances
                    (describeInstancesRequest
                       (world (one_page [i_a; i_b]) (fun _ => JNull) hour));
                  GetProducts (getProductsRequest "t4g.2xlarge");
                  GetProducts (getProductsRequest "m5.large");
                  PutMetricData (putMetricDataRequest 2%float) ];
       outcome := Ok tt |}.
Proof. reflexivity. Qed.

Example totalCost_two_instances :
  totalCost [1%float; 1%float] = "2.00"%string /\
  JSON_parse (totalCost [1%float; 1%float]) = Some 2%float.
Proof. split; reflexivity. Qed.

Example totalCost_huge :
  totalCost [1e23%float] = "1e+23"%string /\
  JSON_parse (totalCost [1e23%float]) = Some 1e23%float.
Proof. split; reflexivity. Qed.

(** ** The sign of the total *)

Lemma costFromLaunch_notneg (Price : jsval) (launch now : Z) :
  (launch <= now)%Z ->
  (ToNumber Price <? 0)%float = false ->
  (costFromLaunch Price launch now <? 0)%float = false.
Proof.
  intros Hle Hrate. apply ltb_zero_notneg. unfold costFromLaunch.
  apply mul_nn_notneg.
  - apply (div_positive_notneg _ 60%float 8444249301319680 (-47) eq_refl).
    apply (div_positive_notneg _ 60%float 8444249301319680 (-47) eq_refl).
    now apply ltb_zero_notneg.
  - apply Z2F_nn. unfold timeDifference. apply Z.div_pos; lia.
Qed.

Lemma costs_from_notneg (clock : nat -> Z) (priced : list (Instance * jsval)) :
  forall k,
    (forall n i Price, nth_error priced n = Some (i, Price) ->
                       (LaunchTime i <= clock (k + n)%nat)%Z /\
                       (ToNumber Price <? 0)%float = false) ->
    Forall (fun c => (c <? 0)%float = false) (costs_from clock k priced).
Proof.
  induction priced as [ | [j P] priced IH ]; intros k H; [ constructor | ].
  cbn [costs_from]. constructor.
  - destruct (H 0%nat j P eq_refl) as [Hl Hr]. rewrite Nat.add_0_r in Hl.
    now apply costFromLaunch_notneg.
  - apply IH. intros n i Price Hn. specialize (H (S n) i Price Hn).
    now rewrite Nat.add_succ_r in H.
Qed.

Lemma fold_add_notneg (costs : list float) :
  Forall (fun c => (c <? 0)%float = false) costs ->
  forall acc,
    notneg (Prim2SF acc) ->
    notneg (Prim2SF (fold_left (fun accumulator value => (accumulator + value)%float)
                               costs acc)).
Proof.
  induction 1 as [ | c costs Hc _ IH ]; intros acc Hacc; [ exact Hacc | ].
  cbn [fold_left]. apply IH, add_notneg; [ exact Hacc | ].
  now apply ltb_zero_notneg.
Qed.

Lemma sum_notneg (costs : list float) :
  Forall (fun c => (c <? 0)%float = false) costs -> notneg (Prim2SF (sum costs)).
Proof.
  intro Hall. unfold sum. now apply fold_add_notneg.
Qed.

Lemma parsed_total_nn (s value : float) :
  notneg (Prim2SF s) -> JSON_parse (toFixed2 s) = Some value ->
  (0 <=? value)%float = true.
Proof.
  intros Hs Hread. pose proof (toFixed2_cases s) as H.
  destruct (Prim2SF s) as [ z | z | | neg m e ] eqn:E.
  - destruct H as [_ H]. rewrite H in Hread. now injection Hread as <-.
  - congruence.
  - congruence.
  - cbn [notneg] in Hs. destruct neg; [ contradiction | ].
    destruct (ten21 <=? abs s)%float.
    + rewrite H in Hread. injection Hread as <-. apply leb_zero_nn. now rewrite E.
    + destruct H as [_ H]. rewrite H in Hread. injection Hread as <-.
      apply leb_zero_nn, round_decimal_nn.
Qed.

(** C2, as the code has it.  The elapsed time of an instance is
    [floor((now - launchTime) / 1000)] seconds, with no clamp.  For
    every fleet whose launch instants are not after the instants at
    which the costs are evaluated, and whose resolved rates are not
    negative numbers, the elapsed seconds are at least zero (so they are
    what the clamp [max(0, .)] would give), no instance contributes a
    negative cost and a published total is at least zero. *)
Theorem total_not_negative (w : World) (insts : list Instance) :
  instances (describeInstances w (describeInstancesRequest w)) = Ok (map Some insts) ->
  (forall k i, nth_error insts k = Some i -> (LaunchTime i <= clock w k)%Z) ->
  (forall i, In i insts -> (ToNumber (rate_of w i) <? 0)%float = false) ->
  (forall k i, nth_error insts k = Some i ->
               timeDifference (LaunchTime i) (clock w k)
               = Z.max 0 (timeDifference (LaunchTime i) (clock w k))) /\
  Forall (fun c => (c <? 0)%float = false)
         (totalCostPerInstanceFromLaunch w (priced_of w insts)) /\
  Forall (fun value => (0 <=? value)%float = true) (published (handler w)).
Proof.
  intros Henum Hlaunch Hrate.
  assert (Hcosts : Forall (fun c => (c <? 0)%float = false)
                          (totalCostPerInstanceFromLaunch w (priced_of w insts))).
  { apply costs_from_notneg. intros n i Price Hn. cbn [Nat.add].
    unfold priced_of in Hn. rewrite nth_error_map in Hn.
    destruct (nth_error insts n) as [ j | ] eqn:Hj; [ | discriminate ].
    injection Hn as <- <-. split; [ now apply Hlaunch | ].
    apply Hrate. eapply nth_error_In; eassumption. }
  split; [ | split; [ exact Hcosts | ] ].
  - intros k i Hi. unfold timeDifference. rewrite Z.max_r; [ reflexivity | ].
    apply Z.div_pos; [ | lia ]. specialize (Hlaunch k i Hi). lia.
  - rewrite (published_total w insts Henum).
    destruct (JSON_parse _) as [ value | ] eqn:Hread; constructor; [ | constructor ].
    eapply parsed_total_nn; [ | exact Hread ]. now apply sum_notneg.
Qed.

(** C2 on two instances launched before the evaluation: 3.60 and 1.80
    add up to the published 5.40. *)
Lemma total_not_negative_two_instances :
  instances (describeInstances (world (one_page [i_a; i_b]) (flat_rate "3.60") hour)
               (describeInstancesRequest
                  (world (one_page [i_a; i_b]) (flat_rate "3.60") hour)))
    = Ok (map Some [i_a; i_b]) /\
  published (handler (world (one_page [i_a; i_b]) (flat_rate "3.60") hour))
    = [0x1.599999999999ap+2%float] /\
  Forall (fun value => (0 <=? value)%float = true)
         (published (handler (world (one_page [i_a; i_b]) (flat_rate "3.60") hour))).
Proof.
  split; [ reflexivity | ]. split; [ reflexivity | ].
  apply (total_not_negative (world (one_page [i_a; i_b]) (flat_rate "3.60") hour)
           [i_a; i_b]).
  - reflexivity.
  - intros [ | [ | [ | k ] ] ] i; cbn; intros [= <-] || discriminate; cbv; discriminate.
  - intros i [<- | [<- | []]]; reflexivity.
Defined.

(** C2, as the specification words it, fails: nothing clamps the elapsed
    time.  An instance whose launch is reported one hour after the
    evaluation instant has -3600 elapsed seconds, contributes a negative
    cost, and the total published is -3.60. *)
Lemma future_launch_negative_total :
  timeDifference (LaunchTime i_late) hour = (-3600)%Z /\
  totalCostPerInstanceFromLaunch
    (world (one_page [i_late]) (flat_rate "3.60") hour)
    (priced_of (world (one_page [i_late]) (flat_rate "3.60") hour) [i_late])
    = [(-0x1.ccccccccccccdp+1)%float] /\
  published (handler (world (one_page [i_late]) (flat_rate "3.60") hour))
    = [(-0x1.ccccccccccccdp+1)%float] /\
  ((-0x1.ccccccccccccdp+1) <? 0)%float = true.
Proof.
  repeat split; reflexivity.
Qed.

(** ----------------------------------------------------------------- *)
(** * Further properties *)

Local Close Scope float_scope.
Local Open Scope Z_scope.
Local Open Scope string_scope.
Local Open Scope list_scope.

(** ** [findPrice], further *)

(** X1.  For a key written in capital letters, as the currency codes
    are, [findPrice] returns the [USD] entry of the last visited value
    that holds a truthy entry under that key ([undefined] when there is
    none): the key selects the object, the entry returned is always
    [USD]. *)
Theorem findPrice_returns_USD_of_key_holder (doc : jsval) (k : string) :
  currency_code k = true ->
  findPrice doc k =
    match rev (filter (holds k) (visited doc)) with
    | [] => JUndefined
    | o :: _ => get o "USD"
    end.
Proof.
  intros _. unfold findPrice. rewrite foundObj_last.
  destruct (rev (filter (holds k) (visited doc))) as [ | o rest ] eqn:E;
    [ reflexivity | ].
  apply last_filtered_in in E. apply (holds_not_nullish k), E.
Qed.

(** X1 on a document that quotes a rate in two currencies, asked for
    the yuan rate: the dollar rate comes back. *)
Lemma findPrice_CNY_returns_USD :
  currency_code "CNY" = true /\
  findPrice (JArr [JObj [("pricePerUnit",
                          JObj [("CNY", JStr "25.00"); ("USD", JStr "3.60")])]])
            "CNY"
  = JStr "3.60".
Proof.
  split; [ reflexivity | ].
  rewrite (findPrice_returns_USD_of_key_holder _ "CNY" eq_refl). reflexivity.
Defined.

(** X2.  When at most one visited value of a document holds a truthy
    [USD] entry, [findPrice] returns the rate the document's first such
    value holds: last and first match coincide. *)
Theorem findPrice_single_match (doc : jsval) :
  (List.length (filter (holds "USD") (visited doc)) <= 1)%nat ->
  findPrice doc "USD" = first_rate doc.
Proof.
  intro Hlen. unfold findPrice, first_rate. rewrite foundObj_last.
  destruct (filter (holds "USD") (visited doc)) as [ | o [ | o' rest ] ] eqn:E.
  - reflexivity.
  - cbn [rev app]. apply (holds_not_nullish "USD").
    assert (Hin : In o (filter (holds "USD") (visited doc))) by (rewrite E; now left).
    now apply filter_In in Hin.
  - cbn [List.length] in Hlen. lia.
Qed.

(** X2 on a catalog document that quotes one rate. *)
Lemma findPrice_single_match_linux :
  (List.length (filter (holds "USD") (visited (linux_doc "3.60"))) <= 1)%nat /\
  findPrice (linux_doc "3.60") "USD" = first_rate (linux_doc "3.60").
Proof.
  split; [ cbv; lia | ].
  apply findPrice_single_match. cbv. lia.
Defined.

Lemma found_array (k : string) (l : list jsval) :
  SerializeJSONProperty k JUndefined (JArr l) =
    match rev (filter (holds k) (flat_map visited l)) with
    | [] => JUndefined
    | o :: _ => o
    end.
Proof. rewrite foundObj_last. reflexivity. Qed.

Lemma findPrice_truthy_iff (doc : jsval) :
  ToBoolean (findPrice doc "USD") = true <->
  filter (holds "USD") (visited doc) <> [].
Proof.
  unfold findPrice. rewrite foundObj_last.
  destruct (filter (holds "USD") (visited doc)) as [ | a l ] eqn:E.
  - cbn. split; [ discriminate | congruence ].
  - split; [ discriminate | intros _ ].
    destruct (rev (a :: l)) as [ | o rest ] eqn:R.
    + apply (f_equal (@rev jsval)) in R. rewrite rev_involutive in R. discriminate.
    + rewrite <- E in R. apply last_filtered_in in R. destruct R as [_ Hh].
      rewrite (holds_not_nullish "USD" o Hh). unfold holds in Hh.
      now apply andb_true_iff in Hh.
Qed.

(** X3.  On a [PriceList] of several documents the rate comes from the
    last document that quotes one: a further document overrides the
    earlier ones exactly when it holds a truthy [USD] entry. *)
Theorem findPrice_last_document (docs : list jsval) (d : jsval) :
  findPrice (JArr (docs ++ [d])) "USD" =
    if ToBoolean (findPrice d "USD") then findPrice d "USD"
    else findPrice (JArr docs) "USD".
Proof.
  destruct (ToBoolean (findPrice d "USD")) eqn:Ht.
  - apply findPrice_truthy_iff in Ht.
    unfold findPrice. rewrite found_array, foundObj_last.
    rewrite flat_map_app, filter_app, rev_app_distr. cbn [flat_map].
    rewrite app_nil_r.
    destruct (rev (filter (holds "USD") (visited d))) as [ | o rest ] eqn:R.
    + apply (f_equal (@rev jsval)) in R. rewrite rev_involutive in R.
      cbn in R. contradiction.
    + reflexivity.
  - assert (He : filter (holds "USD") (visited d) = []).
    { destruct (filter (holds "USD") (visited d)) eqn:E; [ reflexivity | ].
      assert (H : ToBoolean (findPrice d "USD") = true).
      { apply findPrice_truthy_iff. rewrite E. discriminate. }
      congruence. }
    unfold findPrice. rewrite !found_array.
    rewrite flat_map_app, filter_app. cbn [flat_map]. rewrite app_nil_r, He, app_nil_r.
    reflexivity.
Qed.

(** ** [flattenArray], further *)

(** X4.  [flattenArray] distributes over concatenation of its argument. *)
Theorem flattenArray_app {A : Type} (a b : list (nested A)) :
  flattenArray (a ++ b) = flattenArray a ++ flattenArray b.
Proof.
  unfold flattenArray. rewrite !fold_append_acc. cbn [app]. apply flat_map_app.
Qed.

Lemma flattenArray_items {A : Type} (l : list A) :
  flattenArray (map Item l) = l.
Proof.
  unfold flattenArray. rewrite fold_append_acc. cbn [app].
  induction l as [ | a l IH ]; [ reflexivity | ].
  cbn [map flat_map flattenElement app]. now rewrite IH.
Qed.

(** X5.  [flattenArray] leaves an array without nested arrays unchanged,
    removes a wrapping array, and is idempotent. *)
Theorem flattenArray_flat_fixpoint {A : Type} (l : list A) (ary : list (nested A)) :
  flattenArray (map Item l) = l /\
  flattenArray [Nested ary] = flattenArray ary /\
  flattenArray (map Item (flattenArray ary)) = flattenArray ary.
Proof.
  split; [ apply flattenArray_items | ].
  split; [ reflexivity | apply flattenArray_items ].
Qed.

(** ** The counts of [instanceCountByType] *)

Lemma count_in_increment (t t' : string) (o : list (string * nat)) :
  has_key t' o = true ->
  count_in t (increment t' o) =
    (count_in t o + if String.eqb t' t then 1 else 0)%nat.
Proof.
  unfold count_in, has_key.
  induction o as [ | [k n] o IH ]; [ discriminate | ].
  cbn [existsb increment fst]. intro Hk.
  destruct (String.eqb_spec k t') as [ -> | Hkt' ].
  - cbn [find fst snd]. destruct (String.eqb t' t); [ cbn [snd]; lia | lia ].
  - cbn [orb] in Hk. cbn [find fst].
    destruct (String.eqb_spec k t) as [ -> | Hkt ].
    + cbn [snd]. destruct (String.eqb_spec t' t); [ congruence | lia ].
    + apply IH, Hk.
Qed.

Lemma count_in_append (t t' : string) (o : list (string * nat)) :
  has_key t' o = false ->
  count_in t (o ++ [(t', 1%nat)]) =
    (count_in t o + if String.eqb t' t then 1 else 0)%nat.
Proof.
  unfold count_in, has_key.
  induction o as [ | [k n] o IH ]; cbn [existsb app find fst snd].
  - intros _. now destruct (String.eqb t' t).
  - intro Hk. apply orb_false_iff in Hk. destruct Hk as [Hkt' Hk].
    destruct (String.eqb_spec k t) as [ -> | Hkt ].
    + cbn [snd]. rewrite String.eqb_sym, Hkt'. lia.
    + apply IH, Hk.
Qed.

Lemma count_in_count_type (t t' : string) (o : list (string * nat)) :
  count_in t (count_type o t') =
    (count_in t o + if String.eqb t' t then 1 else 0)%nat.
Proof.
  unfold count_type. destruct (has_key t' o) eqn:Hk.
  - now apply count_in_increment.
  - now apply count_in_append.
Qed.

Lemma count_in_fold (t : string) (insts : list Instance) :
  forall o,
    count_in t (fold_left (fun o i => count_type o (InstanceType i)) insts o) =
      (count_in t o +
       List.length (filter (fun i => String.eqb (InstanceType i) t) insts))%nat.
Proof.
  induction insts as [ | i insts IH ]; intro o; cbn [fold_left filter].
  - cbn [List.length]. lia.
  - rewrite IH, count_in_count_type.
    destruct (String.eqb (InstanceType i) t); cbn [List.length]; lia.
Qed.

(** X6.  When every enumerated element is an instance and the type
    names are plain names, the [forEach] loop ends with, under each
    type, the number of instances of that type (and no entry for a type
    without instances). *)
Theorem instanceCountByType_counts (insts : list Instance) :
  Forall (fun i => plain_name (InstanceType i) = true) insts ->
  exists o,
    instanceCountByType (map Some insts) = Ok o /\
    forall t,
      count_in t o =
        List.length (filter (fun i => String.eqb (InstanceType i) t) insts).
Proof.
  intros _. exists (types_of insts). split; [ apply instanceCountByType_defined | ].
  intro t. unfold types_of. now rewrite count_in_fold.
Qed.

(** X6 on a fleet of two types: two instances of one, one of the other,
    none of a third. *)
Lemma instanceCountByType_counts_three_instances :
  Forall (fun i => plain_name (InstanceType i) = true) [i_a; i_b; i_late] /\
  exists o,
    instanceCountByType (map Some [i_a; i_b; i_late]) = Ok o /\
    count_in "t4g.2xlarge" o = 2%nat /\
    count_in "m5.large" o = 1%nat /\
    count_in "c5.large" o = 0%nat.
Proof.
  assert (Hplain : Forall (fun i => plain_name (InstanceType i) = true)
                          [i_a; i_b; i_late]).
  { repeat constructor. }
  split; [ exact Hplain | ].
  destruct (instanceCountByType_counts [i_a; i_b; i_late] Hplain) as [o [Ho Hcount]].
  exists o. split; [ exact Ho | ].
  rewrite !Hcount. repeat split.
Defined.

(** ** The order of the pricing queries *)

Lemma filter_filter {A : Type} (f g : A -> bool) (l : list A) :
  filter f (filter g l) = filter (fun x => g x && f x) l.
Proof.
  induction l as [ | x l IH ]; [ reflexivity | ].
  cbn [filter]. destruct (g x); cbn [filter andb]; now rewrite IH.
Qed.

Lemma has_key_count_type (u t : string) (o : list (string * nat)) :
  has_key u (count_type o t) = has_key u o || String.eqb t u.
Proof.
  destruct (has_key u (count_type o t)) eqn:E.
  - apply has_key_In in E. rewrite count_type_keys in E.
    symmetry. apply orb_true_iff.
    destruct (has_key t o) eqn:Ht.
    + left. now apply has_key_In.
    + apply in_app_iff in E. destruct E as [E | [<- | []]].
      * left. now apply has_key_In.
      * right. apply String.eqb_refl.
  - symmetry. apply orb_false_iff. split.
    + destruct (has_key u o) eqn:Hu; [ | reflexivity ].
      apply has_key_In in Hu.
      assert (H : has_key u (count_type o t) = true).
      { apply has_key_In. rewrite count_type_keys.
        destruct (has_key t o); [ assumption | ]. apply in_app_iff. now left. }
      congruence.
    + destruct (String.eqb_spec t u) as [ -> | ]; [ | reflexivity ].
      assert (H : has_key u (count_type o u) = true).
      { apply has_key_In. rewrite count_type_keys.
        destruct (has_key u o) eqn:Hu; [ now apply has_key_In | ].
        apply in_app_iff. right. now left. }
      congruence.
Qed.

Lemma keys_fold_firsts (insts : list Instance) :
  forall o,
    map fst (fold_left (fun o i => count_type o (InstanceType i)) insts o) =
      map fst o ++ filter (fun u => negb (has_key u o))
                          (firsts (map InstanceType insts)).
Proof.
  induction insts as [ | i insts IH ]; intro o; cbn [fold_left map firsts].
  - cbn [filter]. now rewrite app_nil_r.
  - rewrite IH. cbn [filter]. rewrite filter_filter.
    rewrite count_type_keys.
    rewrite (filter_ext (fun u => negb (has_key u (count_type o (InstanceType i))))
                        (fun u => negb (String.eqb u (InstanceType i)) && negb (has_key u o))).
    2:{ intro u. rewrite has_key_count_type, negb_orb, andb_comm.
        now rewrite (String.eqb_sym (InstanceType i) u). }
    destruct (has_key (InstanceType i) o); cbn [negb].
    + reflexivity.
    + now rewrite <- app_assoc.
Qed.

Lemma types_of_firsts (insts : list Instance) :
  map fst (types_of insts) = firsts (map InstanceType insts).
Proof.
  unfold types_of. rewrite keys_fold_firsts. cbn [map app].
  clear. induction (firsts (map InstanceType insts)) as [ | u l IH ];
    [ reflexivity | ].
  cbn [filter]. change (has_key u []) with false. cbn [negb]. now rewrite IH.
Qed.

(** X7.  For instances whose type names are plain names, the pricing
    catalog is queried for the instance types in the order in which
    they first appear among the enumerated instances. *)
Theorem pricing_queries_in_order_of_first_appearance (w : World) (insts : list Instance) :
  instances (describeInstances w (describeInstancesRequest w)) = Ok (map Some insts) ->
  Forall (fun i => plain_name (InstanceType i) = true) insts ->
  pricing_queries (handler w) = firsts (map InstanceType insts).
Proof.
  intros Henum _. rewrite (pricing_queries_handler w insts Henum).
  apply types_of_firsts.
Qed.

(** X7 on a fleet whose second type appears between two instances of
    the first. *)
Lemma pricing_queries_order_three_instances :
  instances (describeInstances (world (one_page [i_b; i_a; i_b]) (flat_rate "3.60") hour)
               (describeInstancesRequest (world (one_page [i_b; i_a; i_b]) (flat_rate "3.60") hour)))
    = Ok (map Some [i_b; i_a; i_b]) /\
  Forall (fun i => plain_name (InstanceType i) = true) [i_b; i_a; i_b] /\
  pricing_queries (handler (world (one_page [i_b; i_a; i_b]) (flat_rate "3.60") hour))
    = ["m5.large"; "t4g.2xlarge"].
Proof.
  assert (Hplain : Forall (fun i => plain_name (InstanceType i) = true)
                          [i_b; i_a; i_b]).
  { repeat constructor. }
  split; [ reflexivity | ]. split; [ exact Hplain | ].
  apply (pricing_queries_in_order_of_first_appearance
           (world (one_page [i_b; i_a; i_b]) (flat_rate "3.60") hour)
           [i_b; i_a; i_b] eq_refl Hplain).
Defined.

(** ** An enumeration without reservations or instances *)

Lemma forEach_count_undefined (insts : list (option Instance)) :
  In None insts -> forall o, forEach_count insts o = Throw TypeError.
Proof.
  induction insts as [ | [ i | ] insts IH ]; intros Hin o.
  - destruct Hin.
  - cbn [forEach_count]. apply IH. destruct Hin as [ H | H ]; [ discriminate | exact H ].
  - reflexivity.
Qed.

Lemma forEach_count_all_defined (insts : list (option Instance)) :
  forall o byType,
    forEach_count insts o = Ok byType -> exists l, insts = map Some l.
Proof.
  induction insts as [ | [ i | ] insts IH ]; intros o byType H.
  - now exists [].
  - cbn [forEach_count] in H. destruct (IH _ _ H) as [l ->]. now exists (i :: l).
  - discriminate.
Qed.

(** X8.  When the answer of EC2 has no [Reservations] or a reservation
    without [Instances], the invocation fails with a TypeError and stops
    after the enumeration: no pricing query is made and nothing is
    published.  When the instances described have plain type names and
    the rates resolved for them are no objects, that is the only way to
    a TypeError. *)
Theorem TypeError_iff_enumeration_malformed (w : World) :
  let r := describeInstances w (describeInstancesRequest w) in
  (malformed r = true ->
   handler w = {| calls := [DescribeInstances (describeInstancesRequest w)];
                  outcome := Throw TypeError |}) /\
  (Forall (fun i => plain_name (InstanceType i) = true) (page_instances r) ->
   Forall (fun i => primitive (rate_of w i) = true) (page_instances r) ->
   outcome (handler w) = Throw TypeError -> malformed r = true).
Proof.
  cbv zeta. unfold malformed. split.
  - intro H. unfold handler, instances, response.
    destruct (Reservations _) as [ rs | ]; [ | reflexivity ].
    unfold instanceCountByType. rewrite forEach_count_undefined; [ reflexivity | ].
    unfold flattenArray. rewrite fold_append_acc. cbn [app].
    apply in_flat_map. apply existsb_exists in H. destruct H as [x [Hin Hx]].
    exists (Item None). split; [ | now left ].
    apply in_map_iff. exists x. split; [ | exact Hin ].
    now destruct (Instances x).
  - intros _ _ Hout.
    destruct (Reservations _) as [ rs | ] eqn:Hrs; [ | reflexivity ].
    destruct (existsb _ rs) eqn:Hex; [ reflexivity | exfalso ].
    assert (Hall : Forall (fun x => Instances x <> None) rs).
    { apply Forall_forall. intros x Hin Hx.
      assert (H : existsb (fun reservation =>
                             match Instances reservation with
                             | None => true
                             | Some _ => false
                             end) rs = true).
      { apply existsb_exists. exists x. split; [ exact Hin | now rewrite Hx ]. }
      congruence. }
    pose proof (handler_run w _ (instances_flattened _ rs Hrs Hall)) as Hrun.
    cbv zeta in Hrun. rewrite Hrun in Hout.
    destruct (JSON_parse _); discriminate.
Qed.

Example enumeration_reservation_without_instances :
  handler (world (fun _ => {| Reservations :=
                                Some [ {| Instances := Some [i_a] |};
                                       {| Instances := None |} ];
                              ResultNextToken := None |})
                 (flat_rate "3.60") hour)
  = {| calls := [DescribeInstances
                   {| Filters := [ {| Name := "tag:tracking"; Values := ["CC"] |};
                                   {| Name := "instance-state-name";
                                      Values := ["running"] |} ];
                      MaxResults := None;
                      NextToken := None |}];
       outcome := Throw TypeError |}.
Proof. reflexivity. Qed.

(** A fleet of two priced instances with plain type names does not end
    in a TypeError. *)
Example well_formed_fleet_no_TypeError :
  malformed (one_page [i_a; i_b] None) = false /\
  Forall (fun i => plain_name (InstanceType i) = true) [i_a; i_b] /\
  Forall (fun i => primitive (rate_of (world (one_page [i_a; i_b]) (flat_rate "3.60") hour) i)
                   = true) [i_a; i_b] /\
  outcome (handler (world (one_page [i_a; i_b]) (flat_rate "3.60") hour)) = Ok tt.
Proof. repeat split; repeat constructor. Qed.

(** ** The shape of every invocation *)

(** X9.  When the instances described have plain type names and the
    rates resolved for them are no objects, the invocation makes its
    calls in one order: the enumeration, then one pricing query for each
    of a list of distinct types, then, when it resolves, one
    [putMetricData].  A TypeError stops it before the first pricing
    query, a SyntaxError after the last one; looking a price up in
    [priceList] does not fail. *)
Theorem handler_call_sequence (w : World) :
  Forall (fun i => plain_name (InstanceType i) = true)
         (page_instances (describeInstances w (describeInstancesRequest w))) ->
  Forall (fun i => primitive (rate_of w i) = true)
         (page_instances (describeInstances w (describeInstancesRequest w))) ->
  exists types,
    NoDup types /\
    let enumerate := DescribeInstances (describeInstancesRequest w) in
    let quote := map (fun t => GetProducts (getProductsRequest t)) types in
    match outcome (handler w) with
    | Ok _ =>
        exists value,
          calls (handler w) =
            enumerate :: quote ++ [PutMetricData (putMetricDataRequest value)]
    | Throw TypeError => calls (handler w) = [enumerate]
    | Throw (SyntaxError _) => calls (handler w) = enumerate :: quote
    end.
Proof.
  intros _ _. unfold handler.
  destruct (instances _) as [ insts | e ] eqn:Henum.
  2:{ exists []. split; [ constructor | ]. cbv zeta. cbn [outcome calls].
      unfold instances in Henum. destruct (response _); [ discriminate | ].
      now injection Henum as <-. }
  destruct (instanceCountByType insts) as [ byType | e ] eqn:Hcount.
  2:{ exists []. split; [ constructor | ]. cbv zeta. cbn [outcome calls].
      revert Hcount. unfold instanceCountByType. generalize (@nil (string * nat)).
      clear. induction insts as [ | [ i | ] insts IH ]; intros o H.
      - discriminate.
      - cbn [forEach_count] in H. now apply (IH _ H).
      - cbn [forEach_count] in H. now injection H as <-. }
  destruct (forEach_count_all_defined _ _ _ Hcount) as [l ->].
  rewrite instanceCountByType_defined in Hcount. injection Hcount as <-.
  exists (map fst (types_of l)). split; [ apply types_of_distinct | ].
  assert (Hq : pricing_calls (types_of l) =
               map (fun t => GetProducts (getProductsRequest t)) (map fst (types_of l))).
  { unfold pricing_calls. now rewrite map_map. }
  rewrite instancesWithPrices_defined.
  2:{ intros i Hi. apply types_of_distinct. now apply in_map. }
  cbv zeta. destruct (JSON_parse _) as [ value | ]; cbn [outcome calls].
  - exists value. rewrite <- Hq. reflexivity.
  - rewrite <- Hq. reflexivity.
Qed.

(** X9 on a fleet of two types: the enumeration, two pricing queries,
    one datapoint. *)
Lemma handler_call_sequence_two_types :
  Forall (fun i => plain_name (InstanceType i) = true)
         (page_instances (one_page [i_a; i_b] None)) /\
  Forall (fun i => primitive (rate_of (world (one_page [i_a; i_b]) (flat_rate "3.60") hour) i)
                   = true)
         (page_instances (one_page [i_a; i_b] None)) /\
  exists types value,
    NoDup types /\
    calls (handler (world (one_page [i_a; i_b]) (flat_rate "3.60") hour)) =
      DescribeInstances
        (describeInstancesRequest (world (one_page [i_a; i_b]) (flat_rate "3.60") hour))
        :: map (fun t => GetProducts (getProductsRequest t)) types
           ++ [PutMetricData (putMetricDataRequest value)].
Proof.
  assert (Hplain : Forall (fun i => plain_name (InstanceType i) = true)
                          (page_instances (one_page [i_a; i_b] None))).
  { repeat constructor. }
  assert (Hrates : Forall (fun i => primitive
                                      (rate_of (world (one_page [i_a; i_b])
                                                      (flat_rate "3.60") hour) i) = true)
                          (page_instances (one_page [i_a; i_b] None))).
  { repeat constructor. }
  split; [ exact Hplain | ]. split; [ exact Hrates | ].
  destruct (handler_call_sequence
              (world (one_page [i_a; i_b]) (flat_rate "3.60") hour) Hplain Hrates)
    as [types [Hnd Hcalls]].
  cbv zeta in Hcalls.
  change (outcome (handler (world (one_page [i_a; i_b]) (flat_rate "3.60") hour)))
    with (Ok tt) in Hcalls.
  destruct Hcalls as [value Hcalls].
  exists types, value. split; [ exact Hnd | exact Hcalls ].
Defined.

(** What an invocation publishes is what [JSON.parse] read. *)
Lemma published_parsed (w : World) :
  (outcome (handler w) <> Ok tt /\ published (handler w) = []) \/
  (exists costs value,
     JSON_parse (totalCost costs) = Some value /\
     outcome (handler w) = Ok tt /\
     published (handler w) = [value]).
Proof.
  unfold handler, published.
  destruct (instances _) as [ insts | e ];
    [ | left; split; [ discriminate | reflexivity ] ].
  destruct (instanceCountByType insts) as [ byType | e ];
    [ | left; split; [ discriminate | reflexivity ] ].
  destruct (instancesWithPrices _ insts) as [ priced | e ].
  - destruct (JSON_parse _) as [ value | ] eqn:Hread; cbn [calls outcome app].
    + right. exists (totalCostPerInstanceFromLaunch w priced), value.
      split; [ exact Hread | ]. split; [ reflexivity | ].
      rewrite app_comm_cons, flat_map_app.
      rewrite (no_datapoint_among (describeInstancesRequest w) byType). reflexivity.
    + left. split; [ discriminate | ].
      apply (no_datapoint_among (describeInstancesRequest w) byType).
  - left. split; [ discriminate | ]. cbn [calls app].
    apply (no_datapoint_among (describeInstancesRequest w) byType).
Qed.

(** X10.  An invocation that resolves has published exactly one
    datapoint; an invocation that fails has published none. *)
Theorem handler_publishes_iff_resolved (w : World) :
  match outcome (handler w) with
  | Ok _ => exists value, published (handler w) = [value]
  | Throw _ => published (handler w) = []
  end.
Proof.
  destruct (published_parsed w) as [ [Hout Hpub] | [costs [value [_ [Hout Hpub]]]] ].
  - destruct (outcome (handler w)) as [ [] | e ]; [ congruence | exact Hpub ].
  - rewrite Hout. now exists value.
Qed.

(** ** Totals that are numbers *)

(** X11.  Once the enumeration has answered with instances, the
    invocation resolves exactly when the sum of the costs is a number:
    a sum that is NaN or infinite makes it fail. *)
Theorem handler_resolves_iff_total_finite (w : World) (insts : list Instance) :
  instances (describeInstances w (describeInstancesRequest w)) = Ok (map Some insts) ->
  (outcome (handler w) = Ok tt <->
   finite_class (sum (totalCostPerInstanceFromLaunch w (priced_of w insts))) = true).
Proof.
  intro Henum. rewrite (handler_run w insts Henum). cbv zeta.
  unfold totalCost, finite_class.
  pose proof (toFixed2_cases (sum (totalCostPerInstanceFromLaunch w (priced_of w insts))))
    as H.
  destruct (Prim2SF (sum _)) as [ s | s | | neg m e ].
  - destruct H as [_ ->]. cbn [outcome]. tauto.
  - rewrite H. cbn [outcome]. split; discriminate.
  - rewrite H. cbn [outcome]. split; discriminate.
  - destruct (ten21 <=? abs _)%float.
    + rewrite H. cbn [outcome]. tauto.
    + destruct H as [_ ->]. cbn [outcome]. tauto.
Qed.

(** X11 on a fleet of two priced instances. *)
Lemma handler_resolves_two_instances :
  instances (describeInstances (world (one_page [i_a; i_b]) (flat_rate "3.60") hour)
               (describeInstancesRequest (world (one_page [i_a; i_b]) (flat_rate "3.60") hour)))
    = Ok (map Some [i_a; i_b]) /\
  outcome (handler (world (one_page [i_a; i_b]) (flat_rate "3.60") hour)) = Ok tt.
Proof.
  split; [ reflexivity | ].
  apply (handler_resolves_iff_total_finite
           (world (one_page [i_a; i_b]) (flat_rate "3.60") hour)
           [i_a; i_b] eq_refl).
  vm_compute. reflexivity.
Defined.

Lemma SFeqb_refl_nn (sf : spec_float) : sf <> S754_nan -> SFeqb sf sf = true.
Proof.
  unfold SFeqb, SFcompare.
  destruct sf as [ s | [|] | | [|] m e ]; intro H; try reflexivity;
    try congruence; rewrite Z.compare_refl.
  - now rewrite Pos.compare_cont_refl.
  - rewrite Pos.compare_cont_refl. reflexivity.
Qed.

Lemma is_nan_false (x : float) : Prim2SF x <> S754_nan -> is_nan x = false.
Proof.
  intro H. unfold is_nan. rewrite eqb_spec, SFeqb_refl_nn; [ reflexivity | exact H ].
Qed.

Lemma round_decimal_not_nan (neg : bool) (M : N) (E : Z) :
  is_nan (round_decimal neg M E) = false.
Proof.
  apply is_nan_false. pose proof (round_decimal_nn M E) as H.
  destruct neg.
  - rewrite round_decimal_opp, opp_spec.
    destruct (Prim2SF (round_decimal false M E)); cbn in *; try discriminate;
      contradiction.
  - destruct (Prim2SF (round_decimal false M E)); cbn in *; try discriminate;
      contradiction.
Qed.

Lemma JSON_parse_not_nan (text : string) (value : float) :
  JSON_parse text = Some value -> is_nan value = false.
Proof.
  unfold JSON_parse.
  destruct (match trim json_ws text with
            | String "-" r => (true, r)
            | _ => (false, trim json_ws text)
            end) as [neg body].
  destruct (json_number body) as [ [M E] | ]; [ | discriminate ].
  intros [= <-]. apply round_decimal_not_nan.
Qed.

(** X12.  No invocation publishes NaN. *)
Theorem published_never_nan (w : World) :
  Forall (fun value => is_nan value = false) (published (handler w)).
Proof.
  destruct (published_parsed w) as [ [_ ->] | [costs [value [Hread [_ ->]]]] ].
  - constructor.
  - constructor; [ | constructor ]. exact (JSON_parse_not_nan _ _ Hread).
Qed.

(** ** Rates that are not numbers *)

Local Open Scope float_scope.


Local Close Scope float_scope.



(** ** The join on an arbitrary price list *)

(** [find] returns the first element that satisfies the test. *)
Lemma find_first {A : Type} (f : A -> bool) (l : list A) (x : A) :
  find f l = Some x ->
  exists before after,
    l = before ++ x :: after /\ f x = true /\ forallb (fun y => negb (f y)) before = true.
Proof.
  induction l as [ | a l IH ]; [ discriminate | ].
  cbn [find]. destruct (f a) eqn:Ha.
  - intros [= <-]. now exists [], l.
  - intro H. destruct (IH H) as [before [after [-> [Hx Hb]]]].
    exists (a :: before), after. repeat split; [ assumption | ].
    cbn [forallb]. now rewrite Ha.
Qed.

(** X15.  The join keeps the instances in their order and gives each
    the price of the first entry of the price list that has its type;
    it fails, with a TypeError, only when some instance has a type
    without entry. *)
Theorem instancesWithPrices_first_entry (prices : list (string * jsval))
  (insts : list Instance) :
  match instancesWithPrices prices (map Some insts) with
  | Ok priced =>
      map fst priced = insts /\
      Forall (fun x =>
                exists before after,
                  prices = before ++ (InstanceType (fst x), snd x) :: after /\
                  ~ In (InstanceType (fst x)) (map fst before)) priced
  | Throw e =>
      e = TypeError /\
      exists i, In i insts /\ ~ In (InstanceType i) (map fst prices)
  end.
Proof.
  induction insts as [ | i insts IH ]; [ now split | ].
  cbn [map instancesWithPrices withPrice].
  destruct (find _ prices) as [ [t P] | ] eqn:Hfind; cbn [bind].
  - destruct (instancesWithPrices prices (map Some insts)) as [ priced | e ]; cbn [bind].
    + destruct IH as [Hfst Hall]. split; [ cbn [map fst]; now rewrite Hfst | ].
      constructor; [ | exact Hall ]. cbn [fst snd].
      destruct (find_first _ _ _ Hfind) as [before [after [-> [Ht Hb]]]].
      cbn [fst] in Ht. apply String.eqb_eq in Ht. subst t.
      exists before, after. split; [ reflexivity | ].
      intro Hin. apply in_map_iff in Hin. destruct Hin as [y [Hy Hin]].
      rewrite forallb_forall in Hb. specialize (Hb y Hin).
      rewrite Hy, String.eqb_refl in Hb. discriminate.
    + destruct IH as [He [j [Hj Hnot]]]. split; [ exact He | ].
      exists j. split; [ now right | exact Hnot ].
  - split; [ reflexivity | ]. exists i. split; [ now left | ].
    intro Hin. apply in_map_iff in Hin. destruct Hin as [y [Hy Hin]].
    pose proof (find_none _ _ Hfind y Hin) as Hn. cbn beta in Hn.
    rewrite Hy, String.eqb_refl in Hn. discriminate.
Qed.

(** ** Instance ids *)

Lemma instances_relabelled (f : Instance -> string) (w : World)
  (req : DescribeInstancesRequest) :
  instances (describeInstances (relabelled f w) req) =
    match instances (describeInstances w req) with
    | Ok l => Ok (map (option_map (with_id f)) l)
    | Throw e => Throw e
    end.
Proof.
  unfold instances, response. cbn [relabelled describeInstances Reservations].
  destruct (Reservations (describeInstances w req)) as [ rs | ]; [ | reflexivity ].
  cbn [option_map]. f_equal. unfold flattenArray. rewrite !fold_append_acc.
  cbn [app]. induction rs as [ | x rs IH ]; [ reflexivity | ].
  cbn [map flat_map]. rewrite map_app, IH. f_equal.
  cbn [Instances]. destruct (Instances x) as [ l | ]; [ | reflexivity ].
  cbn [option_map]. rewrite !flattenElement_leaves. cbn [leaves].
  clear. induction l as [ | i l IH ]; [ reflexivity | ].
  cbn [map flat_map leaves app]. now rewrite IH.
Qed.

Lemma forEach_count_relabelled (f : Instance -> string) (l : list (option Instance)) :
  forall o, forEach_count (map (option_map (with_id f)) l) o = forEach_count l o.
Proof.
  induction l as [ | [ i | ] l IH ]; intro o; [ reflexivity | | reflexivity ].
  cbn [map option_map forEach_count with_id InstanceType]. apply IH.
Qed.

Lemma instancesWithPrices_relabelled (f : Instance -> string)
  (prices : list (string * jsval)) (l : list (option Instance)) :
  instancesWithPrices prices (map (option_map (with_id f)) l) =
    match instancesWithPrices prices l with
    | Ok priced => Ok (map (fun x => (with_id f (fst x), snd x)) priced)
    | Throw e => Throw e
    end.
Proof.
  induction l as [ | [ i | ] l IH ]; [ reflexivity | | reflexivity ].
  cbn [map option_map instancesWithPrices withPrice with_id InstanceType].
  destruct (find _ prices) as [ priceObject | ]; [ | reflexivity ].
  cbn [bind]. rewrite IH.
  destruct (instancesWithPrices prices l); reflexivity.
Qed.

Lemma costs_from_relabelled (f : Instance -> string) (clock : nat -> Z)
  (priced : list (Instance * jsval)) :
  forall k,
    costs_from clock k (map (fun x => (with_id f (fst x), snd x)) priced) =
      costs_from clock k priced.
Proof.
  induction priced as [ | [i P] priced IH ]; intro k; [ reflexivity | ].
  cbn [map costs_from fst snd with_id LaunchTime]. now rewrite IH.
Qed.

(** X16.  The calls and the outcome of an invocation do not depend on
    the ids of the instances. *)
Theorem handler_ignores_InstanceId (f : Instance -> string) (w : World) :
  handler (relabelled f w) = handler w.
Proof.
  unfold handler.
  change (describeInstancesRequest (relabelled f w)) with (describeInstancesRequest w).
  rewrite instances_relabelled.
  destruct (instances (describeInstances w (describeInstancesRequest w)))
    as [ insts | e ]; [ | reflexivity ].
  unfold instanceCountByType. rewrite forEach_count_relabelled.
  destruct (forEach_count insts []) as [ byType | e ]; [ | reflexivity ].
  change (priceList (relabelled f w) byType) with (priceList w byType).
  rewrite instancesWithPrices_relabelled.
  destruct (instancesWithPrices (priceList w byType) insts) as [ priced | e ];
    [ | reflexivity ].
  unfold totalCostPerInstanceFromLaunch.
  change (clock (relabelled f w)) with (clock w).
  rewrite costs_from_relabelled. reflexivity.
Qed.
